(** * Instrumentation stripper and conditional simplifier

    A shallow embedding of the TypeScript-AST rewrite scripts
    [clean1.js] (removal of instrumentation calls, blank-line filter),
    [clean3.js] (single-statement block simplifier, batch driver) and of
    the earlier simplifier [clean2.js].

    The TypeScript parser and printer are library code: the embedding
    starts from syntax trees and, for the textual filter, from printed
    text given as a sequence of UTF-16 code units. *)

From Stdlib Require Import String Ascii List Bool NArith Lia.
From stdpp Require Import base option list strings gmap.

Open Scope string_scope.
Open Scope list_scope.
Set Warnings "-register-all".

(** ** Syntax trees

    Expressions and statements are two sorts, as in the TypeScript
    grammar: an expression child is never a statement.  [OtherExpr] and
    [OtherStmt] stand for every node kind the scripts do not inspect;
    their children are kept in node arrays ([subexprs] for expression
    children, [body] for statement children such as the statements of a
    source file or of a function body). *)

Inductive expr : Type :=
  | Identifier (name : string)
  | PropertyAccess (obj : expr) (name : string)
  | CallExpression (callee : expr) (args : list expr)
  | OtherExpr (kind : string) (subexprs : list expr) (body : list stmt)
with stmt : Type :=
  | ExpressionStatement (e : expr)
  | ReturnStatement (e : option expr)
  | Block (statements : list stmt)
  | IfStatement (cond : expr) (thenStatement : stmt) (elseStatement : option stmt)
  | OtherStmt (kind : string) (subexprs : list expr) (body : list stmt).

(** Induction over both sorts at once, with the list and option
    children covered by [Forall] and a match. *)
Section tree_ind.
Variable P : expr -> Prop.
Variable Q : stmt -> Prop.
Hypothesis HId : forall n, P (Identifier n).
Hypothesis HPa : forall o n, P o -> P (PropertyAccess o n).
Hypothesis HCall : forall f args, P f -> Forall P args -> P (CallExpression f args).
Hypothesis HOe : forall k es ss, Forall P es -> Forall Q ss -> P (OtherExpr k es ss).
Hypothesis HEs : forall e, P e -> Q (ExpressionStatement e).
Hypothesis HRetS : forall e, P e -> Q (ReturnStatement (Some e)).
Hypothesis HRetN : Q (ReturnStatement None).
Hypothesis HBlock : forall ss, Forall Q ss -> Q (Block ss).
Hypothesis HIfS : forall c t e, P c -> Q t -> Q e -> Q (IfStatement c t (Some e)).
Hypothesis HIfN : forall c t, P c -> Q t -> Q (IfStatement c t None).
Hypothesis HOs : forall k es ss, Forall P es -> Forall Q ss -> Q (OtherStmt k es ss).

Fixpoint expr_tree_ind (e : expr) : P e :=
  match e with
  | Identifier n => HId n
  | PropertyAccess o n => HPa o n (expr_tree_ind o)
  | CallExpression f args =>
      HCall f args (expr_tree_ind f)
        ((fix go (l : list expr) : Forall P l :=
            match l with
            | [] => @List.Forall_nil _ P
            | x :: l' => @List.Forall_cons _ P x l' (expr_tree_ind x) (go l')
            end) args)
  | OtherExpr k es ss =>
      HOe k es ss
        ((fix go (l : list expr) : Forall P l :=
            match l with
            | [] => @List.Forall_nil _ P
            | x :: l' => @List.Forall_cons _ P x l' (expr_tree_ind x) (go l')
            end) es)
        ((fix go (l : list stmt) : Forall Q l :=
            match l with
            | [] => @List.Forall_nil _ Q
            | x :: l' => @List.Forall_cons _ Q x l' (stmt_tree_ind x) (go l')
            end) ss)
  end
with stmt_tree_ind (s : stmt) : Q s :=
  match s with
  | ExpressionStatement e => HEs e (expr_tree_ind e)
  | ReturnStatement (Some e) => HRetS e (expr_tree_ind e)
  | ReturnStatement None => HRetN
  | Block ss =>
      HBlock ss
        ((fix go (l : list stmt) : Forall Q l :=
            match l with
            | [] => @List.Forall_nil _ Q
            | x :: l' => @List.Forall_cons _ Q x l' (stmt_tree_ind x) (go l')
            end) ss)
  | IfStatement c t (Some e) =>
      HIfS c t e (expr_tree_ind c) (stmt_tree_ind t) (stmt_tree_ind e)
  | IfStatement c t None => HIfN c t (expr_tree_ind c) (stmt_tree_ind t)
  | OtherStmt k es ss =>
      HOs k es ss
        ((fix go (l : list expr) : Forall P l :=
            match l with
            | [] => @List.Forall_nil _ P
            | x :: l' => @List.Forall_cons _ P x l' (expr_tree_ind x) (go l')
            end) es)
        ((fix go (l : list stmt) : Forall Q l :=
            match l with
            | [] => @List.Forall_nil _ Q
            | x :: l' => @List.Forall_cons _ Q x l' (stmt_tree_ind x) (go l')
            end) ss)
  end.
End tree_ind.

(** ** Printed text and the blank-line filter ([clean1.js],
    [removeCommentsAndEmptyLines])

    A JavaScript string is a sequence of UTF-16 code units. *)

Definition text : Type := list N.

Definition LF : N := 10%N.

(** The code units of an ASCII literal. *)
Fixpoint lit (s : string) : text :=
  match s with
  | EmptyString => []
  | String c r => N_of_ascii c :: lit r
  end.

(** [s.split('\n')]: the segments between line feeds; never empty. *)
Fixpoint split (s : text) : list text :=
  match s with
  | [] => [[]]
  | c :: r =>
      if N.eqb c LF then [] :: split r
      else match split r with
           | l :: ls => (c :: l) :: ls
           | [] => [[c]]
           end
  end.

(** [lines.join('\n')] *)
Fixpoint join (ls : list text) : text :=
  match ls with
  | [] => []
  | [l] => l
  | l :: rest => (l ++ LF :: join rest)%list
  end.

(** A line holds no line feed. *)
Definition noLF (l : text) : Prop := ~ In LF l.

Fixpoint startsWith (p s : text) : bool :=
  match p, s with
  | [], _ => true
  | _ :: _, [] => false
  | a :: p', b :: s' => N.eqb a b && startsWith p' s'
  end.

(** [s.includes(p)] *)
Fixpoint textIncludes (p s : text) : bool :=
  startsWith p s ||
  match s with
  | [] => false
  | _ :: r => textIncludes p r
  end.

(** White space and line terminators, the code units [String.prototype.trim]
    strips. *)
Definition isWhiteSpace (c : N) : bool :=
  existsb (N.eqb c)
    [ 9; 10; 11; 12; 13; 32; 160; 5760;
      8192; 8193; 8194; 8195; 8196; 8197; 8198; 8199; 8200; 8201; 8202;
      8232; 8233; 8239; 8287; 12288; 65279 ]%N.

Fixpoint trimStart (s : text) : text :=
  match s with
  | [] => []
  | c :: r => if isWhiteSpace c then trimStart r else s
  end.

Definition trim (s : text) : text := rev (trimStart (rev (trimStart s))).

Definition marker : text := lit "eslint".

(** [line => line.includes('eslint') || line.trim().length > 0] *)
Definition keepLine (line : text) : bool :=
  textIncludes marker line || (0 <? length (trim line))%nat.

(** [printed.split('\n').filter(...).join('\n')] *)
Definition filterPrinted (printed : text) : text :=
  join (List.filter keepLine (split printed)).

(** ** Files and console

    The batch drivers read and overwrite files and print one report per
    file.  The file system maps a path to the text of the file; the
    console is the list of the reports printed so far, oldest first. *)

Inductive report : Type :=
  | Processed (filePath : string)
  | WouldTransform (filePath : string) (transformed : text)
  | Transformed (filePath : string)
  | Skipped (filePath : string)
  | ErrorProcessing (filePath : string).

Record world : Type := World {
  files : gmap string text;
  console : list report
}.

Definition writeFileSync (filePath : string) (data : text) (w : world) : world :=
  World (<[filePath := data]> (files w)) (console w).

Definition log (r : report) (w : world) : world :=
  World (files w) (console w ++ [r])%list.

(** ** Directories

    The directory scans of [clean1.js] and [clean3.js]. *)

(** What [fs.readdirSync] and [fs.statSync] answer below a directory: an
    entry that is not a directory, a directory with its listing ([None]
    when reading it throws), or an entry whose [statSync] throws. *)
Inductive dirEntry : Type :=
  | File (name : string)
  | Dir (name : string) (listing : option (list dirEntry))
  | Broken (name : string).

(** [s.endsWith(suffix)] *)
Definition endsWith (s suffix : string) : bool :=
  let n := String.length s in
  let m := String.length suffix in
  (m <=? n)%nat && String.eqb (substring (n - m) m s) suffix.

(** [s.startsWith(p)] *)
Definition startsWithStr (s p : string) : bool := String.prefix p s.

Definition excludedDirectory (item : string) : bool :=
  String.eqb item "node_modules" || String.eqb item ".git" ||
  String.eqb item "dist" || String.eqb item "build".

Definition isTypeScriptFile (item : string) : bool :=
  endsWith item ".ts" || endsWith item ".tsx".

(** The path a report is about. *)
Definition reportPath (r : report) : string :=
  match r with
  | Processed p | WouldTransform p _ | Transformed p | Skipped p
  | ErrorProcessing p => p
  end.

(** ** Call classifier ([clean1.js], [shouldRemoveCall]) *)

Definition REMOVABLE_FUNCTIONS : list string :=
  [ "countEvent"; "countRareEvent"; "scopedProfileSectionStart";
    "scopedProfileSectionEnd"; "profileSectionStart"; "profileSectionEnd";
    "playbackLogNote"; "debug"; "info" ].

(** [Array.prototype.includes] on an array of strings. *)
Definition includes (l : list string) (s : string) : bool :=
  existsb (String.eqb s) l.

(** [node.getText()]: the source text of an expression.  An identifier's
    text is its name, a property access is [object.name], a call is
    [callee(arg,...)].  The text of the kinds the scripts never inspect is
    opaque here: it is rendered as [#] followed by the kind, which is the
    text of no identifier. *)
Fixpoint getText (e : expr) : string :=
  match e with
  | Identifier n => n
  | PropertyAccess o n => String.append (getText o) (String.append "." n)
  | CallExpression f args =>
      String.append (getText f)
        (String.append "("
           (String.append (String.concat "," (map getText args)) ")"))
  | OtherExpr k _ _ => String.append "#" k
  end.

(** Whether a character occurs in a string (used to tell source texts
    apart). *)
Fixpoint has_char (c : ascii) (s : string) : bool :=
  match s with
  | EmptyString => false
  | String a r => Ascii.eqb a c || has_char c r
  end.

Definition shouldRemoveCall (node : expr) : bool :=
  match node with
  | CallExpression expression _ =>
      match expression with
      | PropertyAccess receiver methodName =>
          if String.eqb (getText receiver) "console" && String.eqb methodName "log"
          then true
          else if includes REMOVABLE_FUNCTIONS methodName then true
          else false
      | _ => false
      end
  | _ => false
  end.

(** [ts.isExpressionStatement(s) && shouldRemoveCall(s.expression)] *)
Definition isRemovableStatement (s : stmt) : bool :=
  match s with
  | ExpressionStatement e => shouldRemoveCall e
  | _ => false
  end.

(** ** Conditional rewriter ([clean1.js], [processNode]) *)

Module Clean1.

(** [visit] returns [None] for [undefined] (the statement is removed).
    [ts.visitEachChild] rebuilds a node from its visited children; in a
    node array ([Block.statements], [body]) the members whose visit
    returns [undefined] are left out, so a block always stays a block.
    In the [IfStatement] rule the condition [node.expression] is handed
    to [updateIfStatement] as it is.

    The statement children of [OtherStmt] and [OtherExpr] are members of
    node arrays.  A kind that holds one statement in a slot of its own
    (the body of a loop, of a label, of [with]) is not among the trees
    embedded here: when the visit of such a body answers [undefined],
    [ts.visitEachChild] throws and no tree is returned. *)
Fixpoint visit (node : stmt) : option stmt :=
  match node with
  | IfStatement cond t e =>
      let thenStatement := visit t in
      let elseStatement := match e with Some e0 => visit e0 | None => None end in
      if isRemovableStatement t then elseStatement
      else
        let elseStatement :=
          match elseStatement, e with
          | Some _, Some e0 =>
              if isRemovableStatement e0 then None else elseStatement
          | _, _ => elseStatement
          end in
        match thenStatement with
        | None => elseStatement
        | Some t' => Some (IfStatement cond t' elseStatement)
        end
  | ExpressionStatement e =>
      if shouldRemoveCall e then None
      else Some (ExpressionStatement (visitExpr e))
  | ReturnStatement e => Some (ReturnStatement (option_map visitExpr e))
  | Block ss => Some (Block (omap visit ss))
  | OtherStmt k es ss => Some (OtherStmt k (map visitExpr es) (omap visit ss))
  end
with visitExpr (e : expr) : expr :=
  match e with
  | Identifier n => Identifier n
  | PropertyAccess o n => PropertyAccess (visitExpr o) n
  | CallExpression f args => CallExpression (visitExpr f) (map visitExpr args)
  | OtherExpr k es ss => OtherExpr k (map visitExpr es) (omap visit ss)
  end.


Section Driver.
(** Library code: [ts.createSourceFile] ([None] when it throws) and
    [printer.printFile].  The transformer run inside
    [removeCommentsAndEmptyLines] collects comment texts in a local
    array and returns every node as it is, so the tree that is printed
    is the argument itself. *)
Variable createSourceFile : text -> option stmt.
Variable printFile : stmt -> text.

Definition removeCommentsAndEmptyLines (sourceFile : stmt) : text :=
  filterPrinted (printFile sourceFile).

(** Any exception (unreadable file, failed transform) is caught and
    reported; otherwise the file is always overwritten. *)
Definition processFile (filePath : string) (w : world) : world :=
  match files w !! filePath with
  | None => log (ErrorProcessing filePath) w
  | Some sourceText =>
      match createSourceFile sourceText with
      | None => log (ErrorProcessing filePath) w
      | Some sourceFile =>
          match visit sourceFile with
          | None => log (ErrorProcessing filePath) w
          | Some transformed =>
              let transformedCode := removeCommentsAndEmptyLines transformed in
              log (Processed filePath) (writeFileSync filePath transformedCode w)
          end
      end
  end.

(** [processDirectory]: the items of [directoryPath] are handled in
    turn, a directory by a nested run, a [.ts] or [.tsx] file by
    [processFile].  [path.join] is library code.  Nothing catches an
    exception of [readdirSync] or [statSync]: the run ends there, with
    the files written so far; the flag tells whether the run came to
    its end. *)
Variable pathJoin : string -> string -> string.

Fixpoint processEntry (directoryPath : string) (item : dirEntry) (w : world)
  : world * bool :=
  match item with
  | Broken _ => (w, false)
  | Dir name listing =>
      match listing with
      | None => (w, false)
      | Some items =>
          (fix forEach (l : list dirEntry) (w : world) : world * bool :=
             match l with
             | [] => (w, true)
             | i :: rest =>
                 match processEntry (pathJoin directoryPath name) i w with
                 | (w', true) => forEach rest w'
                 | (w', false) => (w', false)
                 end
             end) items w
      end
  | File name =>
      if isTypeScriptFile name
      then (processFile (pathJoin directoryPath name) w, true)
      else (w, true)
  end.

Fixpoint processDirectory (directoryPath : string) (items : list dirEntry)
    (w : world) : world * bool :=
  match items with
  | [] => (w, true)
  | i :: rest =>
      match processEntry directoryPath i w with
      | (w', true) => processDirectory directoryPath rest w'
      | (w', false) => (w', false)
      end
  end.
End Driver.

End Clean1.

(** ** Block simplifier ([clean3.js], [createTransformer]) *)

(** [ts.isBlock(s) && s.statements.length === 1], giving [s.statements[0]] *)
Definition singleStatementOf (s : stmt) : option stmt :=
  match s with
  | Block [single] => Some single
  | _ => None
  end.

(** [ts.isExpressionStatement(s) || ts.isReturnStatement(s)] *)
Definition isExpressionOrReturn (s : stmt) : bool :=
  match s with
  | ExpressionStatement _ | ReturnStatement _ => true
  | _ => false
  end.

Module Clean3.

(** The test [node.parent && ts.isIfStatement(node.parent) &&
    node.parent.elseStatement === node] reads the parent link of the
    parsed tree; here the visitor is told by [isElse] whether the node it
    is given sits in the else slot of an [IfStatement].  When the first
    rule fires, the single statement and the condition are placed in the
    new node without being visited. *)
Fixpoint visit (isElse : bool) (node : stmt) : stmt :=
  match node with
  | IfStatement cond t e =>
      let visitEachChild :=
        IfStatement (visitExpr cond) (visit false t) (option_map (visit true) e) in
      match singleStatementOf t with
      | Some singleStatement =>
          if isExpressionOrReturn singleStatement
          then IfStatement cond singleStatement (option_map (visit true) e)
          else visitEachChild
      | None => visitEachChild
      end
  | Block ss =>
      let visitEachChild := Block (map (visit false) ss) in
      if isElse then
        match ss with
        | [singleStatement] =>
            if isExpressionOrReturn singleStatement then singleStatement
            else visitEachChild
        | _ => visitEachChild
        end
      else visitEachChild
  | ExpressionStatement e => ExpressionStatement (visitExpr e)
  | ReturnStatement e => ReturnStatement (option_map visitExpr e)
  | OtherStmt k es ss => OtherStmt k (map visitExpr es) (map (visit false) ss)
  end
with visitExpr (e : expr) : expr :=
  match e with
  | Identifier n => Identifier n
  | PropertyAccess o n => PropertyAccess (visitExpr o) n
  | CallExpression f args => CallExpression (visitExpr f) (map visitExpr args)
  | OtherExpr k es ss => OtherExpr k (map visitExpr es) (map (visit false) ss)
  end.


Section Driver.
(** Library code: [ts.createSourceFile] and [printer.printFile].
    [postProcessCode] is the chain of four regular-expression
    replacements applied to the printed text; it is kept abstract. *)
Variable createSourceFile : text -> option stmt.
Variable printFile : stmt -> text.
Variable postProcessCode : text -> text.

Definition transformCode (sourceCode : text) : option text :=
  match createSourceFile sourceCode with
  | None => None
  | Some sourceFile => Some (postProcessCode (printFile (visit false sourceFile)))
  end.

Definition processFile (filePath : string) (dryRun : bool) (w : world) : world :=
  match files w !! filePath with
  | None => log (ErrorProcessing filePath) w
  | Some sourceCode =>
      match transformCode sourceCode with
      | None => log (ErrorProcessing filePath) w
      | Some transformed =>
          if bool_decide (sourceCode <> transformed) then
            if dryRun then log (WouldTransform filePath transformed) w
            else log (Transformed filePath) (writeFileSync filePath transformed w)
          else log (Skipped filePath) w
      end
  end.
End Driver.

(** *** Directory scan and batch run ([getAllTypeScriptFiles],
    [processDirectory], [parseArgs]) *)

(** The console lines of a batch run; the report of a file is one line
    here. *)
Inductive consoleLine : Type :=
  | ProcessingDirectory (dirPath : string)
  | Mode (dryRun : bool)
  | NoFilesFound
  | FoundFiles (n : nat)
  | FileReport (r : report)
  | Separator
  | Completed (n : nat)
  | DryRunNotice
  | ErrorProcessingDirectory.

Section Batch.
Variable createSourceFile : text -> option stmt.
Variable printFile : stmt -> text.
Variable postProcessCode : text -> text.
(** [path.join], library code. *)
Variable pathJoin : string -> string -> string.

(** One turn of the loop of [getAllTypeScriptFiles] over the items of
    [dir]; [None] when an exception is thrown. *)
Fixpoint filesOfEntry (dir : string) (item : dirEntry) : option (list string) :=
  match item with
  | Broken _ => None
  | Dir name listing =>
      if excludedDirectory name then Some []
      else
        match listing with
        | None => None
        | Some items =>
            (fix loop (l : list dirEntry) : option (list string) :=
               match l with
               | [] => Some []
               | i :: rest =>
                   match filesOfEntry (pathJoin dir name) i with
                   | None => None
                   | Some found =>
                       match loop rest with
                       | None => None
                       | Some more => Some (found ++ more)
                       end
                   end
               end) items
        end
  | File name =>
      if isTypeScriptFile name then Some [pathJoin dir name] else Some []
  end.

Fixpoint getAllTypeScriptFiles (dir : string) (items : list dirEntry)
  : option (list string) :=
  match items with
  | [] => Some []
  | i :: rest =>
      match filesOfEntry dir i with
      | None => None
      | Some found =>
          match getAllTypeScriptFiles dir rest with
          | None => None
          | Some more => Some (found ++ more)
          end
      end
  end.

(** [for (const file of files) processFile(file, dryRun)] *)
Definition processFiles (fileList : list string) (dryRun : bool) (w : world) : world :=
  fold_left
    (fun w file => processFile createSourceFile printFile postProcessCode file dryRun w)
    fileList w.

(** [processDirectory]: [listing] is what the scan finds below
    [dirPath] ([None] when reading [dirPath] itself throws).  The result
    is the file system, the console lines and the exit code when the
    process is ended. *)
Definition processDirectory (listing : option (list dirEntry))
    (dirPath : string) (dryRun : bool) (fs : gmap string text)
  : gmap string text * list consoleLine * option nat :=
  let banner := [ProcessingDirectory dirPath; Mode dryRun] in
  match listing ≫= getAllTypeScriptFiles dirPath with
  | None => (fs, banner ++ [ErrorProcessingDirectory], Some 1)
  | Some fileList =>
      if (length fileList =? 0)%nat then (fs, banner ++ [NoFilesFound], None)
      else
        let w := processFiles fileList dryRun (World fs []) in
        (files w,
         banner ++ [FoundFiles (length fileList)] ++
         map FileReport (console w) ++
         [Separator; Completed (length fileList)] ++
         (if dryRun then [DryRunNotice] else []),
         None)
  end.
End Batch.

(** [args.findIndex(p)], [None] for [-1] *)
Fixpoint findIndex (p : string -> bool) (args : list string) : option nat :=
  match args with
  | [] => None
  | a :: rest => if p a then Some 0 else option_map S (findIndex p rest)
  end.

(** [parseArgs]: [argv] is [process.argv]. *)
Definition parseArgs (argv : list string) : string * bool :=
  let args := skipn 2 argv in
  let dryRun := existsb (String.eqb "--dry-run") args in
  let dirIndex := findIndex (fun arg => negb (startsWithStr arg "--")) args in
  let dirPath :=
    match dirIndex with
    | Some i => nth i args "."
    | None => "."
    end in
  (dirPath, dryRun).

End Clean3.

(** ** The earlier simplifier ([clean2.js]): any single statement is
    taken out of its block, whatever its kind. *)

Module Clean2.

Fixpoint visit (isElse : bool) (node : stmt) : stmt :=
  match node with
  | IfStatement cond t e =>
      match singleStatementOf t with
      | Some singleStatement =>
          IfStatement cond singleStatement (option_map (visit true) e)
      | None =>
          IfStatement (visitExpr cond) (visit false t) (option_map (visit true) e)
      end
  | Block ss =>
      let visitEachChild := Block (map (visit false) ss) in
      if isElse then
        match ss with
        | [singleStatement] => singleStatement
        | _ => visitEachChild
        end
      else visitEachChild
  | ExpressionStatement e => ExpressionStatement (visitExpr e)
  | ReturnStatement e => ReturnStatement (option_map visitExpr e)
  | OtherStmt k es ss => OtherStmt k (map visitExpr es) (map (visit false) ss)
  end
with visitExpr (e : expr) : expr :=
  match e with
  | Identifier n => Identifier n
  | PropertyAccess o n => PropertyAccess (visitExpr o) n
  | CallExpression f args => CallExpression (visitExpr f) (map visitExpr args)
  | OtherExpr k es ss => OtherExpr k (map visitExpr es) (map (visit false) ss)
  end.

End Clean2.


(** ** Sample trees *)

Definition call (recv meth : string) (args : list expr) : expr :=
  CallExpression (PropertyAccess (Identifier recv) meth) args.
Definition callId (f : string) (args : list expr) : expr :=
  CallExpression (Identifier f) args.

(** [sink.log(a)] with the logging sink [console] *)
Definition sink_log_a : stmt := ExpressionStatement (call "console" "log" [Identifier "a"]).
Definition doWork : stmt := ExpressionStatement (callId "doWork" []).

Definition c : expr := Identifier "c".

(** [if (c) { sink.log(a) } else { doWork() }] *)
Definition if_log_else_work : stmt :=
  IfStatement c (Block [sink_log_a]) (Some (Block [doWork])).
(** [if (c) { sink.log(a) }] *)
Definition if_log : stmt := IfStatement c (Block [sink_log_a]) None.
(** [if (c) doWork(); else { sink.log(a) }] *)
Definition if_work_else_log : stmt :=
  IfStatement c doWork (Some (Block [sink_log_a])).

(** The branch shapes that the examples above present as consisting
    solely of a removable call: the bare expression statement, and a
    block holding just that statement. *)
Definition consistsSolelyOfRemovableCall (branch : stmt) : bool :=
  match branch with
  | Block [s] => isRemovableStatement s
  | _ => isRemovableStatement branch
  end.

(** [if (a) { if (b) foo(); } else bar();] *)
Definition foo : stmt := ExpressionStatement (callId "foo" []).
Definition bar : stmt := ExpressionStatement (callId "bar" []).
Definition nested_if_else : stmt :=
  IfStatement (Identifier "a")
    (Block [IfStatement (Identifier "b") foo None])
    (Some bar).


(** [if (a) { xs.forEach(i => { if (i) { run(i); } }); }] *)
Definition run_i : stmt := ExpressionStatement (callId "run" [Identifier "i"]).
Definition forEach_guarded (inner : stmt) : stmt :=
  ExpressionStatement
    (call "xs" "forEach"
       [OtherExpr "ArrowFunction" [Identifier "i"]
          [Block [IfStatement (Identifier "i") inner None]]]).
Definition if_forEach : stmt :=
  IfStatement (Identifier "a") (Block [forEach_guarded (Block [run_i])]) None.


(** A rewritten optional branch. *)
Definition visitOptional (e : option stmt) : option stmt :=
  match e with
  | Some e0 => Clean1.visit e0
  | None => None
  end.


(** ** Tree predicates *)

(** No removable expression statement is left in any position the
    conditional rewriter visits.  The condition of an [IfStatement] is
    not such a position: the rule never visits it. *)
Fixpoint cleanStmt (s : stmt) : bool :=
  match s with
  | ExpressionStatement e => negb (shouldRemoveCall e) && cleanExpr e
  | ReturnStatement e =>
      match e with Some e0 => cleanExpr e0 | None => true end
  | Block ss => forallb cleanStmt ss
  | IfStatement _ t e =>
      cleanStmt t && match e with Some e0 => cleanStmt e0 | None => true end
  | OtherStmt _ es ss => forallb cleanExpr es && forallb cleanStmt ss
  end
with cleanExpr (e : expr) : bool :=
  match e with
  | Identifier _ => true
  | PropertyAccess o _ => cleanExpr o
  | CallExpression f args => cleanExpr f && forallb cleanExpr args
  | OtherExpr _ es ss => forallb cleanExpr es && forallb cleanStmt ss
  end.

Definition isIfStatement (s : stmt) : bool :=
  match s with
  | IfStatement _ _ _ => true
  | _ => false
  end.

(** Somewhere in the tree an [IfStatement] that has an else branch has
    an [IfStatement] as its then-branch, without braces: printed, the
    [else] would be read with the inner [if]. *)
Fixpoint danglingElse (s : stmt) : bool :=
  match s with
  | ExpressionStatement e => danglingElseExpr e
  | ReturnStatement e =>
      match e with Some e0 => danglingElseExpr e0 | None => false end
  | Block ss => existsb danglingElse ss
  | IfStatement cond t e =>
      danglingElseExpr cond || danglingElse t ||
      match e with
      | Some e0 => isIfStatement t || danglingElse e0
      | None => false
      end
  | OtherStmt _ es ss => existsb danglingElseExpr es || existsb danglingElse ss
  end
with danglingElseExpr (e : expr) : bool :=
  match e with
  | Identifier _ => false
  | PropertyAccess o _ => danglingElseExpr o
  | CallExpression f args => danglingElseExpr f || existsb danglingElseExpr args
  | OtherExpr _ es ss => existsb danglingElseExpr es || existsb danglingElse ss
  end.

(** The number of statements other than blocks, function bodies
    included. *)
Fixpoint countStatements (s : stmt) : nat :=
  match s with
  | ExpressionStatement e => 1 + countStatementsExpr e
  | ReturnStatement e =>
      1 + match e with Some e0 => countStatementsExpr e0 | None => 0 end
  | Block ss => list_sum (map countStatements ss)
  | IfStatement cond t e =>
      1 + countStatementsExpr cond + countStatements t +
      match e with Some e0 => countStatements e0 | None => 0 end
  | OtherStmt _ es ss =>
      1 + list_sum (map countStatementsExpr es) + list_sum (map countStatements ss)
  end
with countStatementsExpr (e : expr) : nat :=
  match e with
  | Identifier _ => 0
  | PropertyAccess o _ => countStatementsExpr o
  | CallExpression f args =>
      countStatementsExpr f + list_sum (map countStatementsExpr args)
  | OtherExpr _ es ss =>
      list_sum (map countStatementsExpr es) + list_sum (map countStatements ss)
  end.

(** An [if] whose chain of else branches ends without an [else]:
    written without braces in front of an [else], it takes that
    [else]. *)
Fixpoint openIf (s : stmt) : bool :=
  match s with
  | IfStatement _ _ None => true
  | IfStatement _ _ (Some e) => openIf e
  | _ => false
  end.

(** ** What the conditional rewriter may do to a tree

    [keptStmt s s'] says that [s'] is [s] with whole statements taken
    out and nothing else changed.  An expression keeps its shape node
    for node (names, callees, argument lists); inside it only the
    statement lists of function bodies may lose statements.  A statement
    that is taken out is a removable expression statement or an
    [IfStatement]; an [IfStatement] is either rebuilt around its own
    condition and the kept branches, or replaced by what is kept of its
    else branch when its then-branch is taken out. *)



(** ** Directory trees *)

Section dirEntry_ind.
Variable P : dirEntry -> Prop.
Hypothesis HFile : forall n, P (File n).
Hypothesis HBroken : forall n, P (Broken n).
Hypothesis HUnreadable : forall n, P (Dir n None).
Hypothesis HDir : forall n items, Forall P items -> P (Dir n (Some items)).

Fixpoint dirEntry_tree_ind (item : dirEntry) : P item :=
  match item with
  | File n => HFile n
  | Broken n => HBroken n
  | Dir n None => HUnreadable n
  | Dir n (Some items) =>
      HDir n items
        ((fix go (l : list dirEntry) : Forall P l :=
            match l with
            | [] => @List.Forall_nil _ P
            | x :: l' => @List.Forall_cons _ P x l' (dirEntry_tree_ind x) (go l')
            end) items)
  end.
End dirEntry_ind.

(** The listing without what the scan of [clean3.js] passes over: the
    files that are no [.ts] or [.tsx] file and the excluded directories
    are left out, at any depth. *)
Fixpoint relevantEntry (item : dirEntry) : list dirEntry :=
  match item with
  | File name => if isTypeScriptFile name then [item] else []
  | Broken _ => [item]
  | Dir name listing =>
      if excludedDirectory name then []
      else [Dir name (option_map (flat_map relevantEntry) listing)]
  end.

(** No directory of the tree bears an excluded name. *)
Fixpoint noExcludedDirectory (item : dirEntry) : bool :=
  match item with
  | File _ | Broken _ => true
  | Dir name listing =>
      negb (excludedDirectory name) &&
      match listing with
      | Some items => forallb noExcludedDirectory items
      | None => true
      end
  end.

(** ** Blocks the two simplifiers treat alike *)

(** A branch that is a block of one statement holds an expression
    statement or a return statement. *)
Definition simpleBranch (branch : stmt) : bool :=
  match singleStatementOf branch with
  | Some s => isExpressionOrReturn s
  | None => true
  end.

Fixpoint simpleSingles (s : stmt) : bool :=
  match s with
  | ExpressionStatement e => simpleSinglesExpr e
  | ReturnStatement e =>
      match e with Some e0 => simpleSinglesExpr e0 | None => true end
  | Block ss => forallb simpleSingles ss
  | IfStatement cond t e =>
      simpleSinglesExpr cond && simpleBranch t && simpleSingles t &&
      match e with
      | Some e0 => simpleBranch e0 && simpleSingles e0
      | None => true
      end
  | OtherStmt _ es ss => forallb simpleSinglesExpr es && forallb simpleSingles ss
  end
with simpleSinglesExpr (e : expr) : bool :=
  match e with
  | Identifier _ => true
  | PropertyAccess o _ => simpleSinglesExpr o
  | CallExpression f args => simpleSinglesExpr f && forallb simpleSinglesExpr args
  | OtherExpr _ es ss => forallb simpleSinglesExpr es && forallb simpleSingles ss
  end.

(** A path made by [path.join] from a directory and an item whose name
    ends in [.ts] or [.tsx]. *)
Definition typeScriptPath (pathJoin : string -> string -> string) (p : string) : Prop :=
  exists d n, p = pathJoin d n /\ isTypeScriptFile n = true.

(** ** Sample directory and files *)

Definition sampleParser : text -> option stmt :=
  fun _ => Some (OtherStmt "SourceFile" [] [doWork]).
Definition samplePrinter : stmt -> text := fun _ => lit "doWork();".
Definition sampleJoin : string -> string -> string :=
  fun d n => String.append d (String.append "/" n).
Definition sampleListing : option (list dirEntry) :=
  Some [File "a.ts"; Dir "node_modules" None; File "README.md";
        Dir "lib" (Some [File "b.tsx"])].
Definition sampleFiles : gmap string text :=
  {[ "src/a.ts" := lit "doWork()"; "src/README.md" := lit "notes" ]}.

(** * Properties *)

(** Induction over expressions and statements together. *)
Lemma tree_ind_both (P : expr -> Prop) (Q : stmt -> Prop) :
  (forall n, P (Identifier n)) ->
  (forall o n, P o -> P (PropertyAccess o n)) ->
  (forall f args, P f -> Forall P args -> P (CallExpression f args)) ->
  (forall k es ss, Forall P es -> Forall Q ss -> P (OtherExpr k es ss)) ->
  (forall e, P e -> Q (ExpressionStatement e)) ->
  (forall e, P e -> Q (ReturnStatement (Some e))) ->
  Q (ReturnStatement None) ->
  (forall ss, Forall Q ss -> Q (Block ss)) ->
  (forall c t e, P c -> Q t -> Q e -> Q (IfStatement c t (Some e))) ->
  (forall c t, P c -> Q t -> Q (IfStatement c t None)) ->
  (forall k es ss, Forall P es -> Forall Q ss -> Q (OtherStmt k es ss)) ->
  (forall e, P e) /\ (forall s, Q s).
Proof.
  intros. split; [apply (expr_tree_ind P Q) | apply (stmt_tree_ind P Q)];
    assumption.
Qed.

(** ** The call classifier *)

Lemma has_char_append c a b :
  has_char c (String.append a b) = has_char c a || has_char c b.
Proof.
  induction a as [|x a IH]; simpl; [reflexivity|].
  rewrite IH. apply orb_assoc.
Qed.

(** Only the identifier [console] has the source text [console]. *)
Lemma getText_console X :
  getText X = "console" <-> X = Identifier "console".
Proof.
  split; [|intros ->; reflexivity].
  destruct X as [n|o n|f args|k es ss]; simpl; intros H.
  - now rewrite H.
  - apply (f_equal (has_char ".")) in H.
    rewrite has_char_append in H. simpl in H.
    rewrite orb_true_r in H. discriminate H.
  - apply (f_equal (has_char "(")) in H.
    rewrite has_char_append in H. simpl in H.
    rewrite orb_true_r in H. discriminate H.
  - discriminate H.
Qed.

Lemma includes_In l s : includes l s = true <-> In s l.
Proof.
  unfold includes. rewrite existsb_exists. split.
  - intros (x & Hx & Heq). apply String.eqb_eq in Heq. now subst.
  - intros H. exists s. split; [exact H | apply String.eqb_refl].
Qed.

(** C9. [shouldRemoveCall] is a total boolean function; it answers [true]
    exactly for a call whose callee is a property access [X.method] where
    either [X] is the identifier [console] and [method] is [log], or
    [method] is one of [REMOVABLE_FUNCTIONS] whatever [X] is; for a call
    whose callee is a bare identifier it answers [false], also when the
    identifier's name is in [REMOVABLE_FUNCTIONS]. *)
Theorem shouldRemoveCall_spec :
  (forall callee args,
     shouldRemoveCall (CallExpression callee args) = true <->
     exists X method,
       callee = PropertyAccess X method /\
       ((X = Identifier "console" /\ method = "log") \/
        In method REMOVABLE_FUNCTIONS)) /\
  (forall f args, shouldRemoveCall (CallExpression (Identifier f) args) = false) /\
  (forall args, shouldRemoveCall (CallExpression (Identifier "debug") args) = false).
Proof.
  split; [|split; reflexivity].
  intros callee args. split.
  - destruct callee as [n|X method|f a|k es ss]; unfold shouldRemoveCall;
      try (intros H; discriminate H).
    destruct (String.eqb (getText X) "console" && String.eqb method "log") eqn:E.
    + intros _. exists X, method. split; [reflexivity|].
      apply andb_true_iff in E as [E1 E2].
      apply String.eqb_eq in E1, E2. apply getText_console in E1. now left.
    + destruct (includes REMOVABLE_FUNCTIONS method) eqn:E'; [|intros H; discriminate H]; cbn iota.
      intros _. exists X, method. split; [reflexivity|].
      right. now apply includes_In.
  - intros (X & method & Hc & Hor). subst callee.
    destruct Hor as [[HX Hm] | Hin]; [subst; reflexivity|].
    unfold shouldRemoveCall. apply includes_In in Hin. rewrite Hin.
    now destruct (_ && _).
Qed.

(** ** The conditional rewriter *)

(** When the then-branch of an [IfStatement] is itself an expression
    statement wrapping a removable call, the whole statement is replaced
    by its rewritten else branch (nothing when there is none); the
    condition is discarded. *)
Theorem visit_then_removable cond t e :
  isRemovableStatement t = true ->
  Clean1.visit (IfStatement cond t e) = visitOptional e.
Proof.
  intros H. cbn [Clean1.visit]. rewrite H. destruct e; reflexivity.
Qed.

Lemma visit_then_removable_witness :
  isRemovableStatement sink_log_a = true /\
  Clean1.visit (IfStatement c sink_log_a (Some (Block [doWork])))
  = visitOptional (Some (Block [doWork])).
Proof.
  split; [reflexivity|].
  apply (visit_then_removable c sink_log_a (Some (Block [doWork]))).
  reflexivity.
Defined.

(** C1. On [if (c) { sink.log(a) } else { doWork() }] the then-branch
    consists solely of a removable call, yet the statement is not
    replaced by its rewritten else branch: the then-branch is a block,
    the rule for an absent then-branch does not see the emptied block,
    and the statement is kept as [if (c) { } else { doWork(); }]. *)
Lemma visit_then_block_not_collapsed :
  consistsSolelyOfRemovableCall (Block [sink_log_a]) = true /\
  Clean1.visit if_log_else_work
  = Some (IfStatement c (Block []) (Some (Block [doWork]))) /\
  Clean1.visit if_log_else_work <> visitOptional (Some (Block [doWork])).
Proof.
  split; [reflexivity|]. split; [reflexivity|]. discriminate.
Qed.

(** C2. A block always rewrites to a block: on [if (c) { sink.log(a) }]
    the rewriter answers [if (c) { }], the statement does not vanish. *)
Theorem visit_emptied_block_kept :
  (forall ss, Clean1.visit (Block ss) = Some (Block (omap Clean1.visit ss))) /\
  Clean1.visit if_log = Some (IfStatement c (Block []) None).
Proof. split; reflexivity. Qed.

(** When the then-branch is not a removable expression statement and
    the else-branch is itself one, the else branch is dropped: the
    result is the [IfStatement] with the same condition, the rewritten
    then-branch and no else (and nothing at all when the then-branch
    rewrites to nothing). *)
Theorem visit_else_removable cond t e0 :
  isRemovableStatement t = false ->
  isRemovableStatement e0 = true ->
  Clean1.visit (IfStatement cond t (Some e0)) =
  match Clean1.visit t with
  | Some t' => Some (IfStatement cond t' None)
  | None => None
  end.
Proof.
  intros Ht He. cbn [Clean1.visit]. rewrite Ht, He.
  assert (Hv : Clean1.visit e0 = None).
  { destruct e0; try discriminate He. simpl in *. now rewrite He. }
  rewrite Hv. reflexivity.
Qed.

Lemma visit_else_removable_witness :
  Clean1.visit (IfStatement c doWork (Some sink_log_a))
  = Some (IfStatement c doWork None).
Proof.
  apply (visit_else_removable c doWork sink_log_a); reflexivity.
Defined.

(** C3. On [if (c) doWork(); else { sink.log(a) }] the else-branch
    consists solely of a removable call, yet it is not dropped: it is a
    block, which stays, emptied, and the result is
    [if (c) doWork(); else { }]. *)
Lemma visit_else_block_not_dropped :
  isRemovableStatement doWork = false /\
  consistsSolelyOfRemovableCall (Block [sink_log_a]) = true /\
  Clean1.visit if_work_else_log
  = Some (IfStatement c doWork (Some (Block []))) /\
  Clean1.visit if_work_else_log <> Some (IfStatement c doWork None).
Proof.
  split; [reflexivity|]. split; [reflexivity|]. split; [reflexivity|].
  discriminate.
Qed.

(** The two outcomes of the [IfStatement] rule, by the rewritten
    then-branch. *)
Lemma visit_if_shape cond t e :
  match Clean1.visit t with
  | None => Clean1.visit (IfStatement cond t e) = visitOptional e
  | Some t' =>
      exists e', Clean1.visit (IfStatement cond t e)
                 = Some (IfStatement cond t' e')
  end.
Proof.
  destruct (Clean1.visit t) as [t'|] eqn:Ht.
  - assert (Hr : isRemovableStatement t = false).
    { destruct t; try reflexivity. simpl in *.
      destruct (shouldRemoveCall e0); [discriminate Ht | reflexivity]. }
    cbn [Clean1.visit]. rewrite Hr, Ht. eexists. reflexivity.
  - cbn [Clean1.visit]. rewrite Ht.
    destruct (isRemovableStatement t); [destruct e; reflexivity|].
    destruct e as [e0|]; [|reflexivity]. simpl.
    destruct (Clean1.visit e0) eqn:He; [|reflexivity].
    destruct (isRemovableStatement e0) eqn:Hr; [|reflexivity].
    destruct e0; try discriminate Hr. simpl in *. rewrite Hr in He. discriminate He.
Qed.

(** C8. An [IfStatement] is emitted only around a then-branch that
    survived: when the then-branch rewrites to nothing the statement is
    replaced by its rewritten else branch (by nothing when there is
    none); when the rule emits an [IfStatement] it carries the rewritten,
    present then-branch. *)
Theorem visit_if_then_present cond t e :
  match Clean1.visit t with
  | None => Clean1.visit (IfStatement cond t e) = visitOptional e
  | Some t' =>
      exists e', Clean1.visit (IfStatement cond t e)
                 = Some (IfStatement cond t' e')
  end.
Proof. exact (visit_if_shape cond t e). Qed.

(** ** The block simplifier *)

(** C5. A block in a branch of an [IfStatement] loses its braces only
    when it holds exactly one statement and that statement is an
    expression statement or a return statement.  A block with no
    statement, with several, or with a single statement of another kind
    stays a block with the same number of statements (each visited in
    turn); so [if (a) { if (b) foo(); } else bar();] is returned as it
    is. *)
Theorem simplifier_unbraces_only_expression_or_return :
  (forall isElse cond s e,
     isExpressionOrReturn s = true ->
     Clean3.visit isElse (IfStatement cond (Block [s]) e)
     = IfStatement cond s (option_map (Clean3.visit true) e)) /\
  (forall isElse cond ss e,
     (forall s, ss = [s] -> isExpressionOrReturn s = false) ->
     Clean3.visit isElse (IfStatement cond (Block ss) e)
     = IfStatement (Clean3.visitExpr cond)
         (Block (map (Clean3.visit false) ss))
         (option_map (Clean3.visit true) e)) /\
  (forall s,
     isExpressionOrReturn s = true -> Clean3.visit true (Block [s]) = s) /\
  (forall isElse ss,
     (forall s, ss = [s] -> isExpressionOrReturn s = false) ->
     Clean3.visit isElse (Block ss) = Block (map (Clean3.visit false) ss)) /\
  Clean3.visit false nested_if_else = nested_if_else.
Proof.
  repeat split.
  - intros isElse cond s e H. cbn [Clean3.visit singleStatementOf].
    now rewrite H.
  - intros isElse cond ss e H.
    destruct ss as [|s [|s' ss]]; try reflexivity.
    specialize (H s eq_refl).
    cbn [Clean3.visit singleStatementOf]. rewrite H.
    destruct isElse; reflexivity.
  - intros s H. cbn [Clean3.visit]. now rewrite H.
  - intros isElse ss H.
    destruct ss as [|s [|s' ss]]; try (destruct isElse; reflexivity).
    specialize (H s eq_refl). cbn [Clean3.visit]. rewrite H.
    destruct isElse; reflexivity.
Qed.

Lemma simplifier_unbraces_only_expression_or_return_witness :
  Clean3.visit false
    (IfStatement (Identifier "a") (Block [IfStatement (Identifier "b") foo None])
       (Some bar))
  = IfStatement (Identifier "a")
      (Block [IfStatement (Identifier "b") foo None]) (Some bar).
Proof.
  rewrite (proj1 (proj2 simplifier_unbraces_only_expression_or_return)
             false (Identifier "a") [IfStatement (Identifier "b") foo None]
             (Some bar)).
  - reflexivity.
  - intros s Hs. injection Hs as <-. reflexivity.
Defined.

(** The earlier simplifier has no such guard: it takes the nested [if]
    out of its block, after which the [else] would be read as belonging
    to it. *)
Lemma legacy_simplifier_unbraces_nested_if :
  Clean2.visit false nested_if_else
  = IfStatement (Identifier "a") (IfStatement (Identifier "b") foo None) (Some bar).
Proof. reflexivity. Qed.

(** ** The blank-line filter *)

Lemma split_line l rest :
  noLF l -> split (l ++ LF :: rest) = l :: split rest.
Proof.
  unfold noLF. induction l as [|x l IH]; intros H; simpl.
  - reflexivity.
  - destruct (N.eqb x LF) eqn:E.
    + apply N.eqb_eq in E. exfalso. apply H. now left.
    + rewrite IH; [reflexivity|]. intros Hin. apply H. now right.
Qed.

Lemma split_single l : noLF l -> split l = [l].
Proof.
  unfold noLF. induction l as [|x l IH]; intros H; simpl.
  - reflexivity.
  - destruct (N.eqb x LF) eqn:E.
    + apply N.eqb_eq in E. exfalso. apply H. now left.
    + rewrite IH; [reflexivity|]. intros Hin. apply H. now right.
Qed.

Lemma split_noLF s : Forall noLF (split s).
Proof.
  induction s as [|x s IH]; simpl.
  - constructor; [intros []|constructor].
  - destruct (N.eqb x LF) eqn:E.
    + constructor; [intros []|exact IH].
    + destruct (split s) as [|l ls]; [repeat constructor|].
      * intros [H|[]]. subst. now rewrite N.eqb_refl in E.
      * inversion IH as [|? ? Hl Hls]; subst.
        constructor; [|exact Hls].
        intros [H|H]; [subst; now rewrite N.eqb_refl in E | now apply Hl].
Qed.

Lemma split_join ls : ls <> [] -> Forall noLF ls -> split (join ls) = ls.
Proof.
  induction ls as [|l ls IH]; intros Hne Hall; [congruence|].
  inversion Hall as [|? ? Hl Hls]; subst.
  destruct ls as [|l' ls].
  - simpl. now apply split_single.
  - change (join (l :: l' :: ls)) with (l ++ LF :: join (l' :: ls))%list.
    rewrite split_line by exact Hl.
    rewrite IH; [reflexivity | discriminate | exact Hls].
Qed.

Lemma filter_noLF (f : text -> bool) ls :
  Forall noLF ls -> Forall noLF (List.filter f ls).
Proof.
  induction 1 as [|l ls Hl Hls IH]; simpl; [constructor|].
  destruct (f l); [constructor; assumption | assumption].
Qed.

Lemma filter_filter (f : text -> bool) ls :
  List.filter f (List.filter f ls) = List.filter f ls.
Proof.
  induction ls as [|l ls IH]; simpl; [reflexivity|].
  destruct (f l) eqn:E; simpl; [rewrite E, IH; reflexivity | exact IH].
Qed.

(** A line is dropped exactly when it lacks the marker and nothing is
    left of it once trimmed. *)
Lemma keepLine_false line :
  keepLine line = false <->
  textIncludes marker line = false /\ trim line = [].
Proof.
  unfold keepLine. rewrite orb_false_iff. split; intros [H1 H2]; split; try exact H1.
  - destruct (trim line); [reflexivity | discriminate H2].
  - now rewrite H2.
Qed.

(** C6. The output of the filter is the input's kept lines joined by
    line feeds: read back line by line, it is the list of the input lines
    that contain the marker or are non-empty once trimmed, in their
    order and as they were; a line is dropped exactly when it has no
    marker and is empty once trimmed. *)
Theorem filterPrinted_lines printed :
  filterPrinted printed = join (List.filter keepLine (split printed)) /\
  (List.filter keepLine (split printed) <> [] ->
   split (filterPrinted printed) = List.filter keepLine (split printed)) /\
  (List.filter keepLine (split printed) = [] -> filterPrinted printed = []) /\
  (forall line,
     In line (List.filter keepLine (split printed)) <->
     In line (split printed) /\
     (textIncludes marker line = true \/ trim line <> [])).
Proof.
  split; [reflexivity|]. split; [|split].
  - intros Hne. unfold filterPrinted.
    apply split_join; [exact Hne|]. apply filter_noLF, split_noLF.
  - intros H. unfold filterPrinted. now rewrite H.
  - intros line. rewrite filter_In. split; intros [Hin Hk]; split; try exact Hin.
    + destruct (keepLine line) eqn:E; [|discriminate Hk].
      destruct (textIncludes marker line) eqn:Em; [now left|right].
      intros Ht. assert (keepLine line = false) by (apply keepLine_false; auto).
      congruence.
    + destruct (keepLine line) eqn:E; [reflexivity|].
      apply keepLine_false in E as [E1 E2]. destruct Hk; congruence.
Qed.

Lemma filterPrinted_lines_witness :
  split (filterPrinted (lit "a;

  // eslint-disable
b;"))
  = [lit "a;"; lit "  // eslint-disable"; lit "b;"].
Proof.
  rewrite (proj1 (proj2 (filterPrinted_lines _))).
  - reflexivity.
  - vm_compute. discriminate.
Defined.

(** Filtering a second time changes nothing. *)
Lemma filterPrinted_idempotent printed :
  filterPrinted (filterPrinted printed) = filterPrinted printed.
Proof.
  unfold filterPrinted.
  destruct (List.filter keepLine (split printed)) as [|l ls] eqn:E.
  - reflexivity.
  - rewrite split_join.
    + rewrite <- E. now rewrite filter_filter.
    + discriminate.
    + rewrite <- E. apply filter_noLF, split_noLF.
Qed.

(** ** The batch driver *)

Section DriverProperties.
Variable createSourceFile : text -> option stmt.
Variable printFile : stmt -> text.
Variable postProcessCode : text -> text.

Let transformCode := Clean3.transformCode createSourceFile printFile postProcessCode.
Let processFile := Clean3.processFile createSourceFile printFile postProcessCode.

(** C7. When the transformed text equals the text of the file, the
    file is reported as skipped and the file system is left as it was;
    and whenever [processFile] changes the file system at all, it is a
    live run that stored at that path a transformed text which differs
    from the original. *)
Theorem processFile_no_change_no_write filePath dryRun w :
  (forall sourceCode,
     files w !! filePath = Some sourceCode ->
     transformCode sourceCode = Some sourceCode ->
     processFile filePath dryRun w = log (Skipped filePath) w /\
     files (processFile filePath dryRun w) = files w) /\
  (files (processFile filePath dryRun w) <> files w ->
   exists sourceCode transformed,
     files w !! filePath = Some sourceCode /\
     transformCode sourceCode = Some transformed /\
     transformed <> sourceCode /\
     dryRun = false /\
     files (processFile filePath dryRun w) = <[filePath := transformed]> (files w)).
Proof.
  unfold processFile, transformCode, Clean3.processFile. split.
  - intros sourceCode Hr Ht. rewrite Hr, Ht.
    rewrite bool_decide_eq_false_2 by (intros H; now apply H).
    split; reflexivity.
  - destruct (files w !! filePath) as [sourceCode|] eqn:Hr;
      [|intros H; now elim H].
    destruct (Clean3.transformCode _ _ _ sourceCode) as [transformed|] eqn:Ht;
      [|intros H; now elim H].
    destruct (bool_decide (sourceCode <> transformed)) eqn:Hd;
      [|intros H; now elim H].
    apply bool_decide_eq_true_1 in Hd.
    destruct dryRun; [intros H; now elim H|].
    intros _. exists sourceCode, transformed.
    split; [reflexivity|]. split; [exact Ht|].
    split; [congruence|]. split; reflexivity.
Qed.
End DriverProperties.

Lemma processFile_no_change_no_write_witness :
  let createSourceFile := fun _ : text => Some (OtherStmt "SourceFile" [] [doWork]) in
  let printFile := fun _ : stmt => lit "doWork();" in
  let postProcessCode := fun t : text => t in
  let w := World {[ "a.ts" := lit "doWork();" ]} [] in
  Clean3.processFile createSourceFile printFile postProcessCode "a.ts" false w
  = log (Skipped "a.ts") w /\
  files (Clean3.processFile createSourceFile printFile postProcessCode "a.ts" false w)
  = files w.
Proof.
  intros createSourceFile printFile postProcessCode w.
  apply (proj1 (processFile_no_change_no_write createSourceFile printFile
                  postProcessCode "a.ts" false w) (lit "doWork();")).
  - reflexivity.
  - reflexivity.
Defined.

(** The driver of [clean1.js] has no such comparison: it overwrites the
    file whatever the result and reports it as processed.  When the
    result equals the original text the stored text is the same again. *)
Lemma clean1_processFile_always_writes createSourceFile printFile filePath w
    sourceText sourceFile transformed :
  files w !! filePath = Some sourceText ->
  createSourceFile sourceText = Some sourceFile ->
  Clean1.visit sourceFile = Some transformed ->
  Clean1.processFile createSourceFile printFile filePath w
  = log (Processed filePath)
      (writeFileSync filePath
         (Clean1.removeCommentsAndEmptyLines printFile transformed) w) /\
  (Clean1.removeCommentsAndEmptyLines printFile transformed = sourceText ->
   files (Clean1.processFile createSourceFile printFile filePath w) = files w).
Proof.
  intros Hr Hp Hv. unfold Clean1.processFile. rewrite Hr, Hp, Hv.
  split; [reflexivity|]. intros ->. simpl. now apply insert_id.
Qed.

(** ** Running the passes twice *)

(** C4. The block simplifier does not reach a fixed point in one run.
    On [if (a) { xs.forEach(i => { if (i) { run(i); } }); }] the first
    run takes the call statement out of its block without visiting it,
    so the inner block is still there; the second run removes it. *)
Theorem simplifier_second_run_differs :
  Clean3.visit false if_forEach
  = IfStatement (Identifier "a") (forEach_guarded (Block [run_i])) None /\
  Clean3.visit false (Clean3.visit false if_forEach)
  = IfStatement (Identifier "a") (forEach_guarded run_i) None /\
  Clean3.visit false (Clean3.visit false if_forEach)
  <> Clean3.visit false if_forEach.
Proof.
  split; [reflexivity|]. split; [reflexivity|]. discriminate.
Qed.

(** The conditional rewriter leaves the same tree alone, so the two
    passes in sequence differ between the first and the second run as
    well. *)
Lemma two_passes_need_second_run :
  let pipeline s := option_map (Clean3.visit false) (Clean1.visit s) in
  pipeline if_forEach
  = Some (IfStatement (Identifier "a") (forEach_guarded (Block [run_i])) None) /\
  (pipeline if_forEach ≫= pipeline)
  = Some (IfStatement (Identifier "a") (forEach_guarded run_i) None).
Proof. split; reflexivity. Qed.

(** ** Expressions under the conditional rewriter *)

Lemma map_id_Forall {A} (f : A -> A) (p : A -> bool) l :
  Forall (fun x => p x = true -> f x = x) l ->
  forallb p l = true -> map f l = l.
Proof.
  induction 1 as [|x l Hx Hl IH]; simpl; [reflexivity|].
  intros H. apply andb_true_iff in H as [H1 H2].
  now rewrite Hx, IH.
Qed.











(** ** The conditional rewriter reaches a fixed point in one run *)

Lemma visit_Some_not_removable s s' :
  Clean1.visit s = Some s' -> isRemovableStatement s = false.
Proof.
  destruct s; try reflexivity. simpl.
  destruct (shouldRemoveCall e); [discriminate | reflexivity].
Qed.

Lemma omap_visit_fixed ss :
  Forall (fun s => forall s', Clean1.visit s = Some s' -> Clean1.visit s' = Some s') ss ->
  omap Clean1.visit (omap Clean1.visit ss) = omap Clean1.visit ss.
Proof.
  induction 1 as [|s ss Hs Hss IH]; [reflexivity|].
  cbn [omap list_omap]. destruct (Clean1.visit s) as [s'|] eqn:E; [|exact IH].
  cbn [omap list_omap]. rewrite (Hs s' eq_refl). now rewrite IH.
Qed.

Lemma map_visitExpr_fixed es :
  Forall (fun e => Clean1.visitExpr (Clean1.visitExpr e) = Clean1.visitExpr e) es ->
  map Clean1.visitExpr (map Clean1.visitExpr es) = map Clean1.visitExpr es.
Proof.
  induction 1 as [|e es He Hes IH]; simpl; [reflexivity|].
  now rewrite He, IH.
Qed.

Lemma map_getText_visitExpr es :
  Forall (fun e => getText (Clean1.visitExpr e) = getText e) es ->
  map getText (map Clean1.visitExpr es) = map getText es.
Proof.
  induction 1 as [|e es He Hes IH]; simpl; [reflexivity|].
  now rewrite He, IH.
Qed.

(** Rewriting an expression does not change its text as far as the
    classifier reads it. *)
Lemma getText_visitExpr e : getText (Clean1.visitExpr e) = getText e.
Proof.
  revert e.
  apply (expr_tree_ind
           (fun e => getText (Clean1.visitExpr e) = getText e)
           (fun _ => True)); try (intros; exact I).
  - reflexivity.
  - intros o n IH. simpl. now rewrite IH.
  - intros f args IHf IHargs. simpl.
    now rewrite IHf, map_getText_visitExpr.
  - reflexivity.
Qed.

Lemma shouldRemoveCall_visitExpr e :
  shouldRemoveCall (Clean1.visitExpr e) = shouldRemoveCall e.
Proof.
  destruct e as [|o n|f args|]; try reflexivity.
  destruct f as [|X m| |]; try reflexivity.
  cbn [Clean1.visitExpr shouldRemoveCall]. now rewrite getText_visitExpr.
Qed.

Lemma visit_if_fixed cond t' e' :
  Clean1.visit t' = Some t' ->
  match e' with Some e1 => Clean1.visit e1 = Some e1 | None => True end ->
  Clean1.visit (IfStatement cond t' e') = Some (IfStatement cond t' e').
Proof.
  intros Ht He. cbn [Clean1.visit].
  rewrite (visit_Some_not_removable _ _ Ht), Ht.
  destruct e' as [e1|]; [|reflexivity].
  now rewrite He, (visit_Some_not_removable _ _ He).
Qed.

(** A second run of the conditional rewriter returns its argument. *)
Lemma visit_fixed_point :
  (forall e, Clean1.visitExpr (Clean1.visitExpr e) = Clean1.visitExpr e) /\
  (forall s s', Clean1.visit s = Some s' -> Clean1.visit s' = Some s').
Proof.
  pose (P := fun e => Clean1.visitExpr (Clean1.visitExpr e) = Clean1.visitExpr e).
  pose (Q := fun s => forall s', Clean1.visit s = Some s' -> Clean1.visit s' = Some s').
  assert (HIf : forall cond t e, Q t ->
            match e with Some e0 => Q e0 | None => True end ->
            Q (IfStatement cond t e)).
  { intros cond t e IHt IHe r H.
    pose proof (visit_if_shape cond t e) as Hc.
    destruct (Clean1.visit t) as [t'|] eqn:Et.
    - destruct Hc as [e' He']. rewrite He' in H. injection H as <-.
      cbn [Clean1.visit] in He'.
      rewrite (visit_Some_not_removable _ _ Et), Et in He'.
      injection He' as He'.
      apply visit_if_fixed; [now apply IHt|].
      destruct e' as [e1|]; [|exact I].
      destruct e as [e0|]; [|discriminate He'].
      destruct (Clean1.visit e0) as [e2|] eqn:E0; [|discriminate He'].
      destruct (isRemovableStatement e0); [discriminate He'|].
      injection He' as ->. now apply IHe.
    - rewrite Hc in H. destruct e as [e0|]; [|discriminate H].
      now apply IHe. }
  apply (tree_ind_both P Q); subst P Q; cbn beta.
  - reflexivity.
  - intros o n IH. simpl. now rewrite IH.
  - intros f args IHf IHargs. simpl. now rewrite IHf, map_visitExpr_fixed.
  - intros k es ss IHes IHss. simpl.
    now rewrite map_visitExpr_fixed, omap_visit_fixed.
  - intros e IH s' H. simpl in H.
    destruct (shouldRemoveCall e) eqn:E; [discriminate H|].
    injection H as <-. simpl.
    now rewrite shouldRemoveCall_visitExpr, E, IH.
  - intros e IH s' H. simpl in H. injection H as <-. simpl. now rewrite IH.
  - intros s' H. simpl in H. now injection H as <-.
  - intros ss IH s' H. simpl in H. injection H as <-. simpl.
    now rewrite omap_visit_fixed.
  - intros cond t e _ IHt IHe. now apply HIf.
  - intros cond t _ IHt. now apply HIf.
  - intros k es ss IHes IHss s' H. simpl in H. injection H as <-. simpl.
    now rewrite map_visitExpr_fixed, omap_visit_fixed.
Qed.

(** ** What the conditional rewriter leaves behind *)

Lemma omap_visit_clean ss :
  Forall (fun s => cleanStmt s = true -> Clean1.visit s = Some s) ss ->
  forallb cleanStmt ss = true -> omap Clean1.visit ss = ss.
Proof.
  induction 1 as [|s ss Hs Hss IH]; [reflexivity|].
  cbn [forallb]. intros H. apply andb_true_iff in H as [H1 H2].
  cbn [omap list_omap]. rewrite (Hs H1). f_equal. exact (IH H2).
Qed.

Lemma cleanStmt_not_removable s :
  cleanStmt s = true -> isRemovableStatement s = false.
Proof.
  destruct s; try reflexivity. simpl.
  destruct (shouldRemoveCall e); [discriminate | reflexivity].
Qed.

Lemma visit_clean_both :
  (forall e, cleanExpr e = true -> Clean1.visitExpr e = e) /\
  (forall s, cleanStmt s = true -> Clean1.visit s = Some s).
Proof.
  apply tree_ind_both.
  - reflexivity.
  - intros o n IH H. simpl in *. now rewrite IH.
  - intros f args IHf IHargs H. simpl in *.
    apply andb_true_iff in H as [H1 H2].
    now rewrite IHf, (map_id_Forall _ _ _ IHargs H2).
  - intros k es ss IHes IHss H. simpl in *.
    apply andb_true_iff in H as [H1 H2].
    now rewrite (map_id_Forall _ _ _ IHes H1), (omap_visit_clean _ IHss H2).
  - intros e IH H. simpl in *. apply andb_true_iff in H as [H1 H2].
    apply negb_true_iff in H1. now rewrite H1, IH.
  - intros e IH H. simpl in *. now rewrite IH.
  - reflexivity.
  - intros ss IH H. simpl in *. now rewrite (omap_visit_clean _ IH H).
  - intros cond t e _ IHt IHe H. cbn [cleanStmt] in H.
    apply andb_true_iff in H as [H1 H2].
    cbn [Clean1.visit].
    rewrite (cleanStmt_not_removable _ H1), (IHt H1), (IHe H2).
    now rewrite (cleanStmt_not_removable _ H2).
  - intros cond t _ IHt H. cbn [cleanStmt] in H.
    apply andb_true_iff in H as [H1 _].
    cbn [Clean1.visit].
    now rewrite (cleanStmt_not_removable _ H1), (IHt H1).
  - intros k es ss IHes IHss H. simpl in *.
    apply andb_true_iff in H as [H1 H2].
    now rewrite (map_id_Forall _ _ _ IHes H1), (omap_visit_clean _ IHss H2).
Qed.

(** A tree without removable expression statements in the visited
    positions is returned as it is: nothing is removed and nothing is
    rebuilt differently. *)
Theorem visit_clean_noop s :
  cleanStmt s = true -> Clean1.visit s = Some s.
Proof. exact (proj2 visit_clean_both s). Qed.

Lemma visit_clean_noop_witness :
  Clean1.visit nested_if_else = Some nested_if_else.
Proof. apply (visit_clean_noop nested_if_else). reflexivity. Defined.

Lemma forallb_omap_visit ss :
  Forall (fun s => forall s', Clean1.visit s = Some s' -> cleanStmt s' = true) ss ->
  forallb cleanStmt (omap Clean1.visit ss) = true.
Proof.
  induction 1 as [|s ss Hs Hss IH]; [reflexivity|].
  cbn [omap list_omap]. destruct (Clean1.visit s) as [s'|] eqn:E; [|exact IH].
  cbn [forallb]. now rewrite (Hs s' eq_refl), IH.
Qed.

Lemma forallb_map_visitExpr es :
  Forall (fun e => cleanExpr (Clean1.visitExpr e) = true) es ->
  forallb cleanExpr (map Clean1.visitExpr es) = true.
Proof.
  induction 1 as [|e es He Hes IH]; simpl; [reflexivity|].
  now rewrite He, IH.
Qed.

Lemma visit_output_clean_both :
  (forall e, cleanExpr (Clean1.visitExpr e) = true) /\
  (forall s s', Clean1.visit s = Some s' -> cleanStmt s' = true).
Proof.
  pose (Q := fun s => forall s', Clean1.visit s = Some s' -> cleanStmt s' = true).
  assert (HIf : forall cond t e, Q t ->
            match e with Some e0 => Q e0 | None => True end ->
            Q (IfStatement cond t e)).
  { intros cond t e IHt IHe r H.
    pose proof (visit_if_shape cond t e) as Hc.
    destruct (Clean1.visit t) as [t'|] eqn:Et.
    - destruct Hc as [e' He']. rewrite He' in H. injection H as <-.
      cbn [Clean1.visit] in He'.
      rewrite (visit_Some_not_removable _ _ Et), Et in He'.
      injection He' as He'.
      cbn [cleanStmt]. rewrite (IHt t' Et). cbn [andb].
      destruct e' as [e1|]; [|reflexivity].
      destruct e as [e0|]; [|discriminate He'].
      destruct (Clean1.visit e0) as [e2|] eqn:E0; [|discriminate He'].
      destruct (isRemovableStatement e0); [discriminate He'|].
      injection He' as ->. now apply IHe.
    - rewrite Hc in H. destruct e as [e0|]; [|discriminate H].
      now apply IHe. }
  apply (tree_ind_both (fun e => cleanExpr (Clean1.visitExpr e) = true) Q);
    subst Q; cbn beta.
  - reflexivity.
  - intros o n IH. exact IH.
  - intros f args IHf IHargs. simpl. now rewrite IHf, forallb_map_visitExpr.
  - intros k es ss IHes IHss. simpl.
    now rewrite forallb_map_visitExpr, forallb_omap_visit.
  - intros e IH s' H. simpl in H.
    destruct (shouldRemoveCall e) eqn:E; [discriminate H|].
    injection H as <-. simpl.
    now rewrite shouldRemoveCall_visitExpr, E, IH.
  - intros e IH s' H. simpl in H. injection H as <-. exact IH.
  - intros s' H. simpl in H. now injection H as <-.
  - intros ss IH s' H. simpl in H. injection H as <-. simpl.
    now apply forallb_omap_visit.
  - intros cond t e _ IHt IHe. now apply HIf.
  - intros cond t _ IHt. now apply HIf.
  - intros k es ss IHes IHss s' H. simpl in H. injection H as <-. simpl.
    now rewrite forallb_map_visitExpr, forallb_omap_visit.
Qed.

(** Whatever the rewriter returns holds no removable expression
    statement in a visited position: every one of them is removed in a
    single run, at any depth, function bodies included. *)
Theorem visit_output_clean s s' :
  Clean1.visit s = Some s' -> cleanStmt s' = true.
Proof. exact (proj2 visit_output_clean_both s s'). Qed.

Lemma visit_output_clean_witness :
  cleanStmt (IfStatement c (Block []) (Some (Block [doWork]))) = true.
Proof. apply (visit_output_clean if_log_else_work). reflexivity. Defined.

(** ** What the block simplifier keeps *)

(** The simplifier returns an [IfStatement] exactly for an
    [IfStatement]. *)
Lemma isIfStatement_visit3 b s :
  isIfStatement (Clean3.visit b s) = isIfStatement s.
Proof.
  destruct s as [e|e|ss|cond t e|k es ss]; try reflexivity.
  - cbn [Clean3.visit]. destruct b; [|reflexivity].
    destruct ss as [|s [|s' ss]]; try reflexivity.
    destruct s; reflexivity.
  - cbn [Clean3.visit]. destruct (singleStatementOf t) as [s|]; [|reflexivity].
    destruct (isExpressionOrReturn s); reflexivity.
Qed.

Lemma isExpressionOrReturn_not_if s :
  isExpressionOrReturn s = true -> isIfStatement s = false.
Proof. destruct s; (reflexivity || discriminate). Qed.

Lemma singleStatementOf_Some t s :
  singleStatementOf t = Some s -> t = Block [s].
Proof.
  destruct t as [| |ss| |]; try discriminate.
  destruct ss as [|x [|y ss]]; try discriminate.
  simpl. now intros [= ->].
Qed.

Lemma existsb_map_false {A} (p : A -> bool) (f : A -> A) l :
  Forall (fun x => p x = false -> p (f x) = false) l ->
  existsb p l = false -> existsb p (map f l) = false.
Proof.
  induction 1 as [|x l Hx Hl IH]; simpl; [reflexivity|].
  intros H. apply orb_false_iff in H as [H1 H2].
  now rewrite Hx, IH.
Qed.

Lemma danglingElse_visit3_both :
  (forall e, danglingElseExpr e = false ->
             danglingElseExpr (Clean3.visitExpr e) = false) /\
  (forall s, forall b, danglingElse s = false ->
             danglingElse (Clean3.visit b s) = false).
Proof.
  pose (Q := fun s => forall b, danglingElse s = false ->
                                danglingElse (Clean3.visit b s) = false).
  assert (Hmap : forall ss, Forall Q ss -> existsb danglingElse ss = false ->
            existsb danglingElse (map (Clean3.visit false) ss) = false).
  { intros ss Hss. apply existsb_map_false.
    eapply Forall_impl; [exact Hss|]. intros s Hs. apply Hs. }
  assert (HIf : forall cond t e,
            (danglingElseExpr cond = false ->
             danglingElseExpr (Clean3.visitExpr cond) = false) ->
            Q t -> match e with Some e0 => Q e0 | None => True end ->
            Q (IfStatement cond t e)).
  { intros cond t e IHc IHt IHe b H. cbn [danglingElse] in H.
    apply orb_false_iff in H as [H H3].
    apply orb_false_iff in H as [H1 H2].
    assert (Hfall : danglingElse
               (IfStatement (Clean3.visitExpr cond) (Clean3.visit false t)
                  (option_map (Clean3.visit true) e)) = false).
    { cbn [danglingElse]. rewrite (IHc H1), (IHt false H2). cbn [orb].
      destruct e as [e0|]; [|reflexivity]. cbn [option_map].
      apply orb_false_iff in H3 as [H3 H4].
      now rewrite isIfStatement_visit3, H3, (IHe true H4). }
    cbn [Clean3.visit].
    destruct (singleStatementOf t) as [s|] eqn:Es; [|exact Hfall].
    destruct (isExpressionOrReturn s) eqn:Ek; [|exact Hfall].
    apply singleStatementOf_Some in Es. subst t.
    cbn [danglingElse existsb] in H2. rewrite orb_false_r in H2.
    cbn [danglingElse]. rewrite H1, H2. cbn [orb].
    destruct e as [e0|]; [|reflexivity]. cbn [option_map].
    apply orb_false_iff in H3 as [_ H4].
    now rewrite (isExpressionOrReturn_not_if _ Ek), (IHe true H4). }
  apply (tree_ind_both
           (fun e => danglingElseExpr e = false ->
                     danglingElseExpr (Clean3.visitExpr e) = false) Q);
    subst Q; cbn beta.
  - reflexivity.
  - intros o n IH H. exact (IH H).
  - intros f args IHf IHargs H. simpl in *.
    apply orb_false_iff in H as [H1 H2].
    now rewrite (IHf H1), (existsb_map_false _ _ _ IHargs H2).
  - intros k es ss IHes IHss H. simpl in *.
    apply orb_false_iff in H as [H1 H2].
    now rewrite (existsb_map_false _ _ _ IHes H1), (Hmap _ IHss H2).
  - intros e IH b H. exact (IH H).
  - intros e IH b H. exact (IH H).
  - reflexivity.
  - intros ss IH b H. cbn [danglingElse] in H.
    assert (Hfall : danglingElse (Block (map (Clean3.visit false) ss)) = false)
      by (cbn [danglingElse]; now apply Hmap).
    cbn [Clean3.visit]. destruct b; [|exact Hfall].
    destruct ss as [|s [|s' ss]]; try exact Hfall.
    destruct (isExpressionOrReturn s); [|exact Hfall].
    cbn [existsb] in H. now rewrite orb_false_r in H.
  - intros cond t e IHc IHt IHe. now apply HIf.
  - intros cond t IHc IHt. now apply HIf.
  - intros k es ss IHes IHss b H. simpl in *.
    apply orb_false_iff in H as [H1 H2].
    now rewrite (existsb_map_false _ _ _ IHes H1), (Hmap _ IHss H2).
Qed.

(** The simplifier never creates an un-braced [if] in the then-branch of
    an [IfStatement] that has an else: a tree free of that shape stays
    free of it, whatever the position the visit starts from. *)
Theorem simplifier_no_new_danglingElse b s :
  danglingElse s = false -> danglingElse (Clean3.visit b s) = false.
Proof. intros H. exact (proj2 danglingElse_visit3_both s b H). Qed.

Lemma simplifier_no_new_danglingElse_witness :
  danglingElse (Clean3.visit false nested_if_else) = false.
Proof.
  apply (simplifier_no_new_danglingElse false nested_if_else). reflexivity.
Defined.

Lemma list_sum_map_eq {A} (g : A -> nat) (f : A -> A) l :
  Forall (fun x => g (f x) = g x) l ->
  list_sum (map g (map f l)) = list_sum (map g l).
Proof.
  induction 1 as [|x l Hx Hl IH]; simpl; [reflexivity|].
  now rewrite Hx, IH.
Qed.

Lemma countStatements_visit3_both :
  (forall e, countStatementsExpr (Clean3.visitExpr e) = countStatementsExpr e) /\
  (forall s, forall b, countStatements (Clean3.visit b s) = countStatements s).
Proof.
  pose (Q := fun s => forall b, countStatements (Clean3.visit b s) = countStatements s).
  assert (Hmap : forall ss, Forall Q ss ->
            list_sum (map countStatements (map (Clean3.visit false) ss))
            = list_sum (map countStatements ss)).
  { intros ss Hss. apply list_sum_map_eq.
    eapply Forall_impl; [exact Hss|]. intros s Hs. apply Hs. }
  assert (HIf : forall cond t e,
            countStatementsExpr (Clean3.visitExpr cond) = countStatementsExpr cond ->
            Q t -> match e with Some e0 => Q e0 | None => True end ->
            Q (IfStatement cond t e)).
  { intros cond t e IHc IHt IHe b.
    assert (He : match option_map (Clean3.visit true) e with
                 | Some e0 => countStatements e0 | None => 0 end
                 = match e with Some e0 => countStatements e0 | None => 0 end).
    { destruct e as [e0|]; [apply IHe | reflexivity]. }
    cbn [Clean3.visit].
    destruct (singleStatementOf t) as [s|] eqn:Es.
    - destruct (isExpressionOrReturn s).
      + apply singleStatementOf_Some in Es. subst t.
        cbn [countStatements map list_sum fold_right]. rewrite He. lia.
      + cbn [countStatements]. rewrite IHc, (IHt false), He. reflexivity.
    - cbn [countStatements]. rewrite IHc, (IHt false), He. reflexivity. }
  apply (tree_ind_both
           (fun e => countStatementsExpr (Clean3.visitExpr e) = countStatementsExpr e) Q);
    subst Q; cbn beta.
  - reflexivity.
  - intros o n IH. exact IH.
  - intros f args IHf IHargs. simpl. now rewrite IHf, (list_sum_map_eq _ _ _ IHargs).
  - intros k es ss IHes IHss. simpl.
    now rewrite (list_sum_map_eq _ _ _ IHes), (Hmap _ IHss).
  - intros e IH b. simpl. now rewrite IH.
  - intros e IH b. simpl. now rewrite IH.
  - reflexivity.
  - intros ss IH b.
    assert (Hfall : countStatements (Block (map (Clean3.visit false) ss))
                    = countStatements (Block ss))
      by (cbn [countStatements]; now apply Hmap).
    cbn [Clean3.visit]. destruct b; [|exact Hfall].
    destruct ss as [|s [|s' ss]]; try exact Hfall.
    destruct (isExpressionOrReturn s); [|exact Hfall].
    cbn [countStatements map list_sum fold_right]. lia.
  - intros cond t e IHc IHt IHe. now apply HIf.
  - intros cond t IHc IHt. now apply HIf.
  - intros k es ss IHes IHss b. simpl.
    now rewrite (list_sum_map_eq _ _ _ IHes), (Hmap _ IHss).
Qed.

(** The simplifier only takes braces away: the tree it returns has as
    many statements other than blocks as the tree it was given. *)
Theorem simplifier_keeps_statement_count b s :
  countStatements (Clean3.visit b s) = countStatements s.
Proof. exact (proj2 countStatements_visit3_both s b). Qed.

Lemma map_getText_visitExpr3 es :
  Forall (fun e => getText (Clean3.visitExpr e) = getText e) es ->
  map getText (map Clean3.visitExpr es) = map getText es.
Proof.
  induction 1 as [|e es He Hes IH]; simpl; [reflexivity|].
  now rewrite He, IH.
Qed.

Lemma getText_visitExpr3 e : getText (Clean3.visitExpr e) = getText e.
Proof.
  revert e.
  apply (expr_tree_ind
           (fun e => getText (Clean3.visitExpr e) = getText e)
           (fun _ => True)); try (intros; exact I).
  - reflexivity.
  - intros o n IH. simpl. now rewrite IH.
  - intros f args IHf IHargs. simpl.
    now rewrite IHf, map_getText_visitExpr3.
  - reflexivity.
Qed.

Lemma shouldRemoveCall_visitExpr3 e :
  shouldRemoveCall (Clean3.visitExpr e) = shouldRemoveCall e.
Proof.
  destruct e as [|o n|f args|]; try reflexivity.
  destruct f as [|X m| |]; try reflexivity.
  cbn [Clean3.visitExpr shouldRemoveCall]. now rewrite getText_visitExpr3.
Qed.

Lemma forallb_map_true {A} (p : A -> bool) (f : A -> A) l :
  Forall (fun x => p x = true -> p (f x) = true) l ->
  forallb p l = true -> forallb p (map f l) = true.
Proof.
  induction 1 as [|x l Hx Hl IH]; simpl; [reflexivity|].
  intros H. apply andb_true_iff in H as [H1 H2].
  now rewrite Hx, IH.
Qed.

Lemma cleanStmt_visit3_both :
  (forall e, cleanExpr e = true -> cleanExpr (Clean3.visitExpr e) = true) /\
  (forall s, forall b, cleanStmt s = true -> cleanStmt (Clean3.visit b s) = true).
Proof.
  pose (Q := fun s => forall b, cleanStmt s = true ->
                                cleanStmt (Clean3.visit b s) = true).
  assert (Hmap : forall ss, Forall Q ss -> forallb cleanStmt ss = true ->
            forallb cleanStmt (map (Clean3.visit false) ss) = true).
  { intros ss Hss. apply forallb_map_true.
    eapply Forall_impl; [exact Hss|]. intros s Hs. apply Hs. }
  assert (HIf : forall cond t e,
            Q t -> match e with Some e0 => Q e0 | None => True end ->
            Q (IfStatement cond t e)).
  { intros cond t e IHt IHe b H. cbn [cleanStmt] in H.
    apply andb_true_iff in H as [H1 H2].
    assert (He : match option_map (Clean3.visit true) e with
                 | Some e0 => cleanStmt e0 | None => true end = true).
    { destruct e as [e0|]; [now apply IHe | reflexivity]. }
    cbn [Clean3.visit].
    destruct (singleStatementOf t) as [s|] eqn:Es.
    - destruct (isExpressionOrReturn s).
      + apply singleStatementOf_Some in Es. subst t.
        cbn [cleanStmt forallb] in H1. rewrite andb_true_r in H1.
        cbn [cleanStmt]. now rewrite H1, He.
      + cbn [cleanStmt]. now rewrite (IHt false H1), He.
    - cbn [cleanStmt]. now rewrite (IHt false H1), He. }
  apply (tree_ind_both
           (fun e => cleanExpr e = true -> cleanExpr (Clean3.visitExpr e) = true) Q);
    subst Q; cbn beta.
  - reflexivity.
  - intros o n IH H. exact (IH H).
  - intros f args IHf IHargs H. simpl in *.
    apply andb_true_iff in H as [H1 H2].
    now rewrite (IHf H1), (forallb_map_true _ _ _ IHargs H2).
  - intros k es ss IHes IHss H. simpl in *.
    apply andb_true_iff in H as [H1 H2].
    now rewrite (forallb_map_true _ _ _ IHes H1), (Hmap _ IHss H2).
  - intros e IH b H. simpl in *. apply andb_true_iff in H as [H1 H2].
    now rewrite shouldRemoveCall_visitExpr3, H1, (IH H2).
  - intros e IH b H. exact (IH H).
  - reflexivity.
  - intros ss IH b H. cbn [cleanStmt] in H.
    assert (Hfall : cleanStmt (Block (map (Clean3.visit false) ss)) = true)
      by (cbn [cleanStmt]; now apply Hmap).
    cbn [Clean3.visit]. destruct b; [|exact Hfall].
    destruct ss as [|s [|s' ss]]; try exact Hfall.
    destruct (isExpressionOrReturn s); [|exact Hfall].
    cbn [forallb] in H. now rewrite andb_true_r in H.
  - intros cond t e _ IHt IHe. now apply HIf.
  - intros cond t _ IHt. now apply HIf.
  - intros k es ss IHes IHss b H. simpl in *.
    apply andb_true_iff in H as [H1 H2].
    now rewrite (forallb_map_true _ _ _ IHes H1), (Hmap _ IHss H2).
Qed.

(** Rewriter, then simplifier, then rewriter again: the last run has
    nothing to do.  The simplifier uncovers no removable statement in
    what the rewriter returned. *)
Theorem rewriter_after_simplifier_noop s s' b :
  Clean1.visit s = Some s' ->
  Clean1.visit (Clean3.visit b s') = Some (Clean3.visit b s').
Proof.
  intros H. apply (proj2 visit_clean_both).
  apply (proj2 cleanStmt_visit3_both).
  exact (proj2 visit_output_clean_both s s' H).
Qed.

Lemma rewriter_after_simplifier_noop_witness :
  Clean1.visit (Clean3.visit false (IfStatement c (Block []) (Some (Block [doWork]))))
  = Some (Clean3.visit false (IfStatement c (Block []) (Some (Block [doWork])))).
Proof.
  apply (rewriter_after_simplifier_noop if_log_else_work). reflexivity.
Defined.

(** ** More on the blank-line filter *)

Lemma trimStart_nil s : trimStart s = [] <-> forallb isWhiteSpace s = true.
Proof.
  induction s as [|x s IH]; [split; reflexivity|].
  cbn [trimStart forallb]. destruct (isWhiteSpace x); [exact IH|].
  split; discriminate.
Qed.

Lemma trimStart_all_white s :
  forallb isWhiteSpace (trimStart s) = true -> trimStart s = [].
Proof.
  induction s as [|x s IH]; [reflexivity|].
  cbn [trimStart]. destruct (isWhiteSpace x) eqn:E; [exact IH|].
  cbn [forallb]. rewrite E. discriminate.
Qed.

Lemma forallb_rev_eq {A} (p : A -> bool) l :
  forallb p (rev l) = forallb p l.
Proof.
  apply eq_true_iff_eq. rewrite !forallb_forall.
  split; intros H x Hx; apply H; [apply in_rev in Hx | apply in_rev]; exact Hx.
Qed.

(** Nothing is left of a line once trimmed exactly when it is made of
    white space only. *)
Lemma trim_nil s : trim s = [] <-> forallb isWhiteSpace s = true.
Proof.
  unfold trim. split.
  - intros H. apply (f_equal (@rev N)) in H. rewrite rev_involutive in H.
    cbn [rev] in H. apply trimStart_nil in H. rewrite forallb_rev_eq in H.
    apply trimStart_all_white in H. now apply trimStart_nil.
  - intros H. apply trimStart_nil in H. now rewrite H.
Qed.

Lemma startsWith_marker_not_white s :
  startsWith marker s = true -> forallb isWhiteSpace s = false.
Proof.
  destruct s as [|x s]; [discriminate|].
  unfold marker. cbn [lit startsWith]. intros H.
  apply andb_true_iff in H as [H _]. apply N.eqb_eq in H. subst x.
  reflexivity.
Qed.

Lemma textIncludes_marker_not_white s :
  textIncludes marker s = true -> forallb isWhiteSpace s = false.
Proof.
  induction s as [|x s IH].
  - discriminate.
  - cbn [textIncludes]. intros H. apply orb_true_iff in H as [H|H].
    + now apply startsWith_marker_not_white.
    + cbn [forallb]. rewrite (IH H). apply andb_false_r.
Qed.

Lemma keepLine_negb_blank line :
  keepLine line = negb (forallb isWhiteSpace line).
Proof.
  unfold keepLine.
  destruct (forallb isWhiteSpace line) eqn:E.
  - assert (Ht : trim line = []) by now apply trim_nil.
    rewrite Ht. cbn [length]. rewrite orb_false_r.
    destruct (textIncludes marker line) eqn:Em; [|reflexivity].
    apply textIncludes_marker_not_white in Em. congruence.
  - destruct (trim line) as [|x t] eqn:Et.
    + apply trim_nil in Et. congruence.
    + cbn. apply orb_true_r.
Qed.

(** A line is kept exactly when it holds a code unit that is not white
    space: a line with the marker holds one, so the marker test never
    changes what the length test decides. *)
Theorem keepLine_nonblank line :
  keepLine line = negb (forallb isWhiteSpace line).
Proof. exact (keepLine_negb_blank line). Qed.

Lemma join_split_id s : join (split s) = s.
Proof.
  induction s as [|x s IH]; [reflexivity|].
  cbn [split]. destruct (N.eqb x LF) eqn:E.
  - apply N.eqb_eq in E. subst x.
    destruct (split s) as [|l ls] eqn:Es; [now destruct s|].
    change (join ([] :: l :: ls)) with ([] ++ LF :: join (l :: ls)).
    now rewrite IH.
  - destruct (split s) as [|l ls] eqn:Es.
    + destruct s as [|y s]; [discriminate Es|].
      cbn [split] in Es. destruct (N.eqb y LF); [discriminate Es|].
      destruct (split s); discriminate Es.
    + destruct ls as [|l' ls].
      * cbn [join] in *. now rewrite IH.
      * change (join ((x :: l) :: l' :: ls)) with (x :: (l ++ LF :: join (l' :: ls))).
        change (join (l :: l' :: ls)) with (l ++ LF :: join (l' :: ls)) in IH.
        now rewrite IH.
Qed.

(** Splitting at line feeds and joining with line feeds gives the text
    back. *)
Theorem join_split s : join (split s) = s.
Proof.
  exact (join_split_id s).
Qed.

Lemma filter_all {A} (p : A -> bool) l :
  forallb p l = true -> List.filter p l = l.
Proof.
  induction l as [|x l IH]; simpl; [reflexivity|].
  intros H. apply andb_true_iff in H as [H1 H2]. now rewrite H1, IH.
Qed.

(** A text in which every line holds a code unit that is not white space
    goes through the filter unchanged. *)
Theorem filterPrinted_noop printed :
  forallb keepLine (split printed) = true -> filterPrinted printed = printed.
Proof.
  intros H. unfold filterPrinted. rewrite filter_all by exact H.
  apply join_split_id.
Qed.

Lemma filterPrinted_noop_witness :
  filterPrinted (lit "if (c)
    doWork();") = lit "if (c)
    doWork();".
Proof. apply filterPrinted_noop. reflexivity. Defined.

Lemma forallb_filter_keepLine l :
  forallb (fun line => negb (forallb isWhiteSpace line))
    (List.filter keepLine l) = true.
Proof.
  induction l as [|x l IH]; simpl; [reflexivity|].
  destruct (keepLine x) eqn:E; [|exact IH].
  cbn [forallb]. rewrite <- keepLine_negb_blank, E. exact IH.
Qed.

(** Unless it is empty, the filtered text has no blank line left: read
    line by line, each of its lines holds a code unit that is not white
    space. *)
Theorem filterPrinted_no_blank_line printed :
  filterPrinted printed <> [] ->
  forallb (fun line => negb (forallb isWhiteSpace line))
    (split (filterPrinted printed)) = true.
Proof.
  intros Hne. unfold filterPrinted in *.
  destruct (List.filter keepLine (split printed)) as [|l ls] eqn:E;
    [now elim Hne|].
  rewrite split_join;
    [|discriminate | rewrite <- E; apply filter_noLF, split_noLF].
  rewrite <- E. apply forallb_filter_keepLine.
Qed.

Lemma filterPrinted_no_blank_line_witness :
  forallb (fun line => negb (forallb isWhiteSpace line))
    (split (filterPrinted (lit "a;

b;"))) = true.
Proof.
  apply filterPrinted_no_blank_line. vm_compute. discriminate.
Defined.

(** ** The batch run of [clean3.js] *)

Section BatchProperties.
Variable createSourceFile : text -> option stmt.
Variable printFile : stmt -> text.
Variable postProcessCode : text -> text.
Variable pathJoin : string -> string -> string.

Let processFile := Clean3.processFile createSourceFile printFile postProcessCode.
Let processFiles := Clean3.processFiles createSourceFile printFile postProcessCode.
Let processDirectory :=
  Clean3.processDirectory createSourceFile printFile postProcessCode pathJoin.
Let getAllTypeScriptFiles := Clean3.getAllTypeScriptFiles pathJoin.
Let filesOfEntry := Clean3.filesOfEntry pathJoin.

Lemma processFile3_cases filePath dryRun w :
  exists r, reportPath r = filePath /\
    (processFile filePath dryRun w = log r w \/
     (dryRun = false /\
      exists t, processFile filePath dryRun w = log r (writeFileSync filePath t w))).
Proof.
  unfold processFile, Clean3.processFile.
  destruct (files w !! filePath) as [src|];
    [|exists (ErrorProcessing filePath); split; [|left]; reflexivity].
  destruct (Clean3.transformCode _ _ _ src) as [t|];
    [|exists (ErrorProcessing filePath); split; [|left]; reflexivity].
  destruct (bool_decide (src <> t));
    [|exists (Skipped filePath); split; [|left]; reflexivity].
  destruct dryRun;
    [exists (WouldTransform filePath t); split; [|left]; reflexivity|].
  exists (Transformed filePath). split; [reflexivity|].
  right. split; [reflexivity|]. exists t. reflexivity.
Qed.

(** [processFile] prints exactly one report, about the file it was
    given; it leaves every other file as it was; in a dry run it leaves
    all files as they were. *)
Theorem processFile_frame filePath dryRun w :
  (exists r, reportPath r = filePath /\
             console (processFile filePath dryRun w) = console w ++ [r]) /\
  (forall p, p <> filePath ->
             files (processFile filePath dryRun w) !! p = files w !! p) /\
  (dryRun = true -> files (processFile filePath dryRun w) = files w).
Proof.
  destruct (processFile3_cases filePath dryRun w) as (r & Hr & [H | (Hd & t & H)]);
    rewrite H.
  - split; [exists r; split; [exact Hr | reflexivity]|].
    split; [reflexivity|]. reflexivity.
  - split; [exists r; split; [exact Hr | reflexivity]|]. split.
    + intros p Hp. cbn. apply lookup_insert_ne. congruence.
    + intros Hd'. congruence.
Qed.

Lemma processFiles_cons f fileList dryRun w :
  processFiles (f :: fileList) dryRun w
  = processFiles fileList dryRun (processFile f dryRun w).
Proof. reflexivity. Qed.

Lemma processFiles_reports fileList dryRun w :
  map reportPath (console (processFiles fileList dryRun w))
  = map reportPath (console w) ++ fileList.
Proof.
  revert w. induction fileList as [|f fl IH]; intros w.
  - cbn. now rewrite app_nil_r.
  - rewrite processFiles_cons, IH.
    destruct (processFile3_cases f dryRun w) as (r & Hr & [H | (_ & t & H)]);
      rewrite H; cbn; rewrite map_app; cbn; rewrite Hr, <- app_assoc; reflexivity.
Qed.

Lemma processFiles_dry fileList w :
  files (processFiles fileList true w) = files w.
Proof.
  revert w. induction fileList as [|f fl IH]; intros w; [reflexivity|].
  rewrite processFiles_cons, IH.
  destruct (processFile3_cases f true w) as (r & Hr & [H | (Hd & _)]);
    [now rewrite H | discriminate Hd].
Qed.

Lemma processFiles_frame fileList dryRun w p :
  ~ In p fileList ->
  files (processFiles fileList dryRun w) !! p = files w !! p.
Proof.
  revert w. induction fileList as [|f fl IH]; intros w Hp; [reflexivity|].
  rewrite processFiles_cons.
  rewrite IH by (intros Hin; apply Hp; now right).
  destruct (processFile3_cases f dryRun w) as (r & Hr & [H | (_ & t & H)]);
    rewrite H; [reflexivity|].
  cbn. apply lookup_insert_ne. intros ->. apply Hp. now left.
Qed.

(** A dry run of [processDirectory] leaves the file system as it was,
    whatever the directory holds and whatever the transform answers. *)
Theorem processDirectory_dry_run listing dirPath fs :
  (processDirectory listing dirPath true fs).1.1 = fs.
Proof.
  unfold processDirectory, Clean3.processDirectory.
  destruct (listing ≫= Clean3.getAllTypeScriptFiles pathJoin dirPath) as [fl|];
    [|reflexivity].
  destruct (length fl =? 0)%nat; [reflexivity|].
  cbn. apply processFiles_dry.
Qed.

(** When the scan succeeds and finds files, every file found gets
    exactly one report, in the order of the scan: an error on one file
    does not keep the next ones from being processed.  The run ends
    without an exit code. *)
Theorem processDirectory_reports listing dirPath dryRun fs fileList :
  listing ≫= getAllTypeScriptFiles dirPath = Some fileList ->
  fileList <> [] ->
  exists reports,
    map reportPath reports = fileList /\
    (processDirectory listing dirPath dryRun fs).1.2
    = [Clean3.ProcessingDirectory dirPath; Clean3.Mode dryRun;
       Clean3.FoundFiles (length fileList)] ++
      map Clean3.FileReport reports ++
      [Clean3.Separator; Clean3.Completed (length fileList)] ++
      (if dryRun then [Clean3.DryRunNotice] else []) /\
    (processDirectory listing dirPath dryRun fs).2 = None.
Proof.
  intros Hscan Hne. unfold processDirectory, Clean3.processDirectory.
  unfold getAllTypeScriptFiles in Hscan. rewrite Hscan.
  destruct fileList as [|f fl]; [now elim Hne|]. cbn [length Nat.eqb].
  exists (console (processFiles (f :: fl) dryRun (World fs []))).
  split; [|split; reflexivity].
  now rewrite processFiles_reports.
Qed.

(** A file the scan does not list is left as it was. *)
Theorem processDirectory_frame listing dirPath dryRun fs fileList p :
  listing ≫= getAllTypeScriptFiles dirPath = Some fileList ->
  ~ In p fileList ->
  (processDirectory listing dirPath dryRun fs).1.1 !! p = fs !! p.
Proof.
  intros Hscan Hp. unfold processDirectory, Clean3.processDirectory.
  unfold getAllTypeScriptFiles in Hscan. rewrite Hscan.
  destruct (length fileList =? 0)%nat; [reflexivity|].
  cbn. now rewrite processFiles_frame.
Qed.
End BatchProperties.

Lemma processFile_frame_witness :
  files (Clean3.processFile sampleParser samplePrinter (fun t => t)
           "src/a.ts" false (World sampleFiles [])) !! "src/README.md"
  = sampleFiles !! "src/README.md".
Proof.
  apply (proj1 (proj2 (processFile_frame sampleParser samplePrinter (fun t => t)
                         "src/a.ts" false (World sampleFiles [])))).
  discriminate.
Defined.

Lemma processDirectory_reports_witness :
  exists reports,
    map reportPath reports = ["src/a.ts"; "src/lib/b.tsx"] /\
    (Clean3.processDirectory sampleParser samplePrinter (fun t => t) sampleJoin
       sampleListing "src" false sampleFiles).1.2
    = [Clean3.ProcessingDirectory "src"; Clean3.Mode false; Clean3.FoundFiles 2] ++
      map Clean3.FileReport reports ++
      [Clean3.Separator; Clean3.Completed 2] ++ [] /\
    (Clean3.processDirectory sampleParser samplePrinter (fun t => t) sampleJoin
       sampleListing "src" false sampleFiles).2 = None.
Proof.
  apply (processDirectory_reports sampleParser samplePrinter (fun t => t) sampleJoin
           sampleListing "src" false sampleFiles ["src/a.ts"; "src/lib/b.tsx"]).
  - reflexivity.
  - discriminate.
Defined.

Lemma processDirectory_frame_witness :
  (Clean3.processDirectory sampleParser samplePrinter (fun t => t) sampleJoin
     sampleListing "src" false sampleFiles).1.1 !! "src/README.md"
  = sampleFiles !! "src/README.md".
Proof.
  apply (processDirectory_frame sampleParser samplePrinter (fun t => t) sampleJoin
           sampleListing "src" false sampleFiles ["src/a.ts"; "src/lib/b.tsx"]).
  - reflexivity.
  - intros [H|[H|[]]]; discriminate H.
Defined.

(** ** The directory scan of [clean3.js] *)

Section ScanProperties.
Variable pathJoin : string -> string -> string.

Let getAllTypeScriptFiles := Clean3.getAllTypeScriptFiles pathJoin.
Let filesOfEntry := Clean3.filesOfEntry pathJoin.

Lemma filesOfEntry_Dir dir name items :
  filesOfEntry dir (Dir name (Some items))
  = if excludedDirectory name then Some []
    else getAllTypeScriptFiles (pathJoin dir name) items.
Proof.
  unfold filesOfEntry, getAllTypeScriptFiles. cbn [Clean3.filesOfEntry].
  destruct (excludedDirectory name); [reflexivity|].
  induction items as [|i rest IH]; [reflexivity|].
  cbn [Clean3.getAllTypeScriptFiles]. rewrite <- IH. reflexivity.
Qed.

Lemma getAllTypeScriptFiles_app dir a b :
  getAllTypeScriptFiles dir (a ++ b)
  = match getAllTypeScriptFiles dir a with
    | None => None
    | Some fa =>
        match getAllTypeScriptFiles dir b with
        | None => None
        | Some fb => Some (fa ++ fb)
        end
    end.
Proof.
  unfold getAllTypeScriptFiles.
  induction a as [|i a IH]; cbn [app Clean3.getAllTypeScriptFiles].
  - now destruct (Clean3.getAllTypeScriptFiles pathJoin dir b).
  - destruct (Clean3.filesOfEntry pathJoin dir i) as [fi|]; [|reflexivity].
    rewrite IH.
    destruct (Clean3.getAllTypeScriptFiles pathJoin dir a) as [fa|]; [|reflexivity].
    destruct (Clean3.getAllTypeScriptFiles pathJoin dir b) as [fb|]; [|reflexivity].
    now rewrite app_assoc.
Qed.

Lemma scan_list_typescript items :
  Forall (fun item => forall dir found,
            filesOfEntry dir item = Some found -> Forall (typeScriptPath pathJoin) found) items ->
  forall dir fl, getAllTypeScriptFiles dir items = Some fl -> Forall (typeScriptPath pathJoin) fl.
Proof.
  unfold getAllTypeScriptFiles, filesOfEntry.
  induction 1 as [|i rest Hi Hrest IH]; intros dir fl H.
  - injection H as <-. constructor.
  - cbn [Clean3.getAllTypeScriptFiles] in H.
    destruct (Clean3.filesOfEntry pathJoin dir i) as [fi|] eqn:Ei; [|discriminate H].
    destruct (Clean3.getAllTypeScriptFiles pathJoin dir rest) as [fr|] eqn:Er;
      [|discriminate H].
    injection H as <-. apply Forall_app. split; [eapply Hi | eapply IH]; eassumption.
Qed.

(** Every path the scan returns is [path.join] of a directory and of an
    item whose name ends in [.ts] or [.tsx]. *)
Theorem scan_only_typescript dir items fileList :
  getAllTypeScriptFiles dir items = Some fileList ->
  Forall (typeScriptPath pathJoin) fileList.
Proof.
  revert dir fileList. apply scan_list_typescript.
  apply Forall_forall. intros item _. revert item.
  apply (dirEntry_tree_ind
           (fun item => forall dir found,
              filesOfEntry dir item = Some found -> Forall (typeScriptPath pathJoin) found)).
  - intros n dir found H. unfold filesOfEntry in H. cbn [Clean3.filesOfEntry] in H. revert H.
    destruct (isTypeScriptFile n) eqn:E; intros H; injection H as <-;
      repeat constructor.
    exists dir, n. now split.
  - intros n dir found H. discriminate H.
  - intros n dir found H. unfold filesOfEntry in H. cbn [Clean3.filesOfEntry] in H. revert H.
    destruct (excludedDirectory n); intros H; [|discriminate H].
    injection H as <-. constructor.
  - intros n sub IH dir found H. rewrite filesOfEntry_Dir in H. revert H.
    destruct (excludedDirectory n); intros H.
    + injection H as <-. constructor.
    + eapply scan_list_typescript; eassumption.
Qed.

Lemma scan_relevant_entry item dir :
  getAllTypeScriptFiles dir (relevantEntry item) = filesOfEntry dir item.
Proof.
  revert item dir.
  apply (dirEntry_tree_ind
           (fun item => forall dir,
              getAllTypeScriptFiles dir (relevantEntry item) = filesOfEntry dir item)).
  - intros n dir. unfold getAllTypeScriptFiles, filesOfEntry. cbn.
    destruct (isTypeScriptFile n) eqn:E; cbn; [now rewrite E | reflexivity].
  - reflexivity.
  - intros n dir. unfold getAllTypeScriptFiles, filesOfEntry. cbn.
    destruct (excludedDirectory n) eqn:E; cbn; [reflexivity | now rewrite E].
  - intros n items IH dir. rewrite filesOfEntry_Dir.
    cbn [relevantEntry]. destruct (excludedDirectory n) eqn:E; [reflexivity|].
    cbn [option_map].
    change (getAllTypeScriptFiles dir [Dir n (Some (flat_map relevantEntry items))])
      with (match filesOfEntry dir (Dir n (Some (flat_map relevantEntry items))) with
            | None => None
            | Some found => Some (found ++ [])
            end).
    rewrite filesOfEntry_Dir, E.
    assert (Hl : getAllTypeScriptFiles (pathJoin dir n) (flat_map relevantEntry items)
                 = getAllTypeScriptFiles (pathJoin dir n) items).
    { induction IH as [|i rest Hi Hrest IHl]; [reflexivity|].
      cbn [flat_map]. rewrite getAllTypeScriptFiles_app, Hi, IHl. reflexivity. }
    rewrite Hl.
    destruct (getAllTypeScriptFiles (pathJoin dir n) items); [|reflexivity].
    now rewrite app_nil_r.
Qed.

(** The items the scan passes over have no part in its result: with the
    files of other kinds and the excluded directories (whatever they
    hold, readable or not) taken out of the listing, at any depth, the
    scan answers the same. *)
Theorem scan_ignores_irrelevant dir items :
  getAllTypeScriptFiles dir (flat_map relevantEntry items)
  = getAllTypeScriptFiles dir items.
Proof.
  induction items as [|i rest IH]; [reflexivity|].
  cbn [flat_map]. rewrite getAllTypeScriptFiles_app, scan_relevant_entry, IH.
  reflexivity.
Qed.
End ScanProperties.

Lemma scan_only_typescript_witness :
  Forall (typeScriptPath sampleJoin) ["src/a.ts"; "src/lib/b.tsx"].
Proof.
  apply (scan_only_typescript sampleJoin "src"
           [File "a.ts"; Dir "node_modules" None; File "README.md";
            Dir "lib" (Some [File "b.tsx"])]).
  reflexivity.
Defined.

(** ** Command-line arguments of [clean3.js] *)

Lemma findIndex_first (p : string -> bool) flags a rest :
  forallb (fun f => negb (p f)) flags = true -> p a = true ->
  Clean3.findIndex p (flags ++ a :: rest) = Some (length flags).
Proof.
  intros Hf Ha. induction flags as [|f flags IH]; cbn.
  - now rewrite Ha.
  - cbn in Hf. apply andb_true_iff in Hf as [H1 H2].
    apply negb_true_iff in H1. rewrite H1, (IH H2). reflexivity.
Qed.

Lemma findIndex_none (p : string -> bool) flags :
  forallb (fun f => negb (p f)) flags = true -> Clean3.findIndex p flags = None.
Proof.
  induction flags as [|f flags IH]; cbn; [reflexivity|].
  intros Hf. apply andb_true_iff in Hf as [H1 H2].
  apply negb_true_iff in H1. now rewrite H1, (IH H2).
Qed.

Lemma not_flag_not_dry_run a :
  startsWithStr a "--" = false -> String.eqb "--dry-run" a = false.
Proof.
  intros H. destruct (String.eqb "--dry-run" a) eqn:E; [|reflexivity].
  apply String.eqb_eq in E. subst a. discriminate H.
Qed.

(** The directory is the first argument that does not start with [--],
    wherever the flags stand, and [.] when every argument starts with
    [--]; the run is a dry run exactly when [--dry-run] is among the
    arguments, before or after the directory.  The arguments after the
    directory that are no flags are not looked at. *)
Theorem parseArgs_directory node script flags :
  forallb (fun f => startsWithStr f "--") flags = true ->
  Clean3.parseArgs (node :: script :: flags)
  = (".", existsb (String.eqb "--dry-run") flags) /\
  forall a rest,
    startsWithStr a "--" = false ->
    Clean3.parseArgs (node :: script :: flags ++ a :: rest)
    = (a, existsb (String.eqb "--dry-run") flags
          || existsb (String.eqb "--dry-run") rest).
Proof.
  intros Hf.
  assert (Hf' : forallb (fun f => negb (negb (startsWithStr f "--"))) flags = true).
  { clear -Hf. induction flags as [|f flags IH]; [reflexivity|].
    cbn in *. apply andb_true_iff in Hf as [H1 H2].
    now rewrite H1, (IH H2). }
  split.
  - unfold Clean3.parseArgs. cbv zeta. cbn [skipn]. rewrite ?skipn_O.
    now rewrite findIndex_none.
  - intros a rest Ha. unfold Clean3.parseArgs. cbv zeta. cbn [skipn]. rewrite ?skipn_O.
    rewrite findIndex_first; [|exact Hf'|now rewrite Ha].
    rewrite app_nth2, Nat.sub_diag by lia. cbn [nth].
    rewrite existsb_app. cbn [existsb].
    now rewrite (not_flag_not_dry_run a Ha).
Qed.

Lemma parseArgs_directory_witness :
  Clean3.parseArgs ["node"; "transform.js"; "--dry-run"; "src"; "extra"]
  = ("src", true || false).
Proof.
  apply (proj2 (parseArgs_directory "node" "transform.js" ["--dry-run"] eq_refl)
           "src" ["extra"]).
  reflexivity.
Defined.

(** ** The driver of [clean1.js] *)

Section Clean1DriverProperties.
Variable createSourceFile : text -> option stmt.
Variable printFile : stmt -> text.
Variable pathJoin : string -> string -> string.

Let processFile := Clean1.processFile createSourceFile printFile.
Let processEntry := Clean1.processEntry createSourceFile printFile pathJoin.
Let processDirectory := Clean1.processDirectory createSourceFile printFile pathJoin.

Lemma processFile1_cases filePath w :
  processFile filePath w = log (ErrorProcessing filePath) w \/
  exists out,
    processFile filePath w
    = log (Processed filePath) (writeFileSync filePath out w) /\
    filterPrinted out = out.
Proof.
  unfold processFile, Clean1.processFile.
  destruct (files w !! filePath) as [src|]; [|now left].
  destruct (createSourceFile src) as [sf|]; [|now left].
  destruct (Clean1.visit sf) as [tr|]; [|now left].
  right. eexists. split; [reflexivity|].
  unfold Clean1.removeCommentsAndEmptyLines. apply filterPrinted_idempotent.
Qed.

(** [processFile] of [clean1.js] either reports an error and leaves the
    file system as it was, or overwrites the file with a text that the
    blank-line filter would leave unchanged and reports it as processed;
    in both cases every other file is left as it was. *)
Theorem clean1_processFile_outcome filePath w :
  ((processFile filePath w = log (ErrorProcessing filePath) w) \/
   exists out,
     processFile filePath w
     = log (Processed filePath) (writeFileSync filePath out w) /\
     filterPrinted out = out) /\
  (forall p, p <> filePath ->
             files (processFile filePath w) !! p = files w !! p).
Proof.
  split; [apply processFile1_cases|].
  intros p Hp. destruct (processFile1_cases filePath w) as [H | (out & H & _)];
    rewrite H; [reflexivity|].
  cbn. apply lookup_insert_ne. congruence.
Qed.

Lemma processEntry_Dir dir name items w :
  processEntry dir (Dir name (Some items)) w
  = processDirectory (pathJoin dir name) items w.
Proof.
  unfold processEntry, processDirectory. cbn [Clean1.processEntry].
  revert w. induction items as [|i rest IH]; intros w; [reflexivity|].
  cbn [Clean1.processDirectory].
  destruct (Clean1.processEntry createSourceFile printFile pathJoin
              (pathJoin dir name) i w) as [w' [|]]; [apply IH | reflexivity].
Qed.

Let processAll (fileList : list string) (w : world) : world :=
  fold_left (fun w file => processFile file w) fileList w.

Lemma processDirectory_list items :
  Forall (fun item => forall dir w,
            noExcludedDirectory item = true ->
            match Clean3.filesOfEntry pathJoin dir item with
            | Some found => processEntry dir item w = (processAll found w, true)
            | None => (processEntry dir item w).2 = false
            end) items ->
  forall dir w,
    forallb noExcludedDirectory items = true ->
    match Clean3.getAllTypeScriptFiles pathJoin dir items with
    | Some fl => processDirectory dir items w = (processAll fl w, true)
    | None => (processDirectory dir items w).2 = false
    end.
Proof.
  induction 1 as [|i rest Hi Hrest IH]; intros dir w Hn; [reflexivity|].
  cbn [forallb] in Hn. apply andb_true_iff in Hn as [Hn1 Hn2].
  unfold processDirectory. cbn [Clean3.getAllTypeScriptFiles Clean1.processDirectory].
  specialize (Hi dir w Hn1). fold processEntry.
  destruct (Clean3.filesOfEntry pathJoin dir i) as [fi|].
  - rewrite Hi. fold processDirectory.
    specialize (IH dir (processAll fi w) Hn2).
    destruct (Clean3.getAllTypeScriptFiles pathJoin dir rest) as [fr|].
    + rewrite IH. unfold processAll. now rewrite fold_left_app.
    + exact IH.
  - destruct (processEntry dir i w) as [w' [|]]; [discriminate Hi | reflexivity].
Qed.

(** In a tree without directories of an excluded name, [clean1.js]
    processes exactly the files that the scan of [clean3.js] lists, in
    the same order; when that scan throws, the run of [clean1.js] is
    cut short as well. *)
Theorem clean1_processDirectory_scan dir items w :
  forallb noExcludedDirectory items = true ->
  match Clean3.getAllTypeScriptFiles pathJoin dir items with
  | Some fileList =>
      processDirectory dir items w
      = (fold_left (fun w file => processFile file w) fileList w, true)
  | None => (processDirectory dir items w).2 = false
  end.
Proof.
  revert dir w. apply processDirectory_list.
  apply Forall_forall. intros item _. revert item.
  apply (dirEntry_tree_ind
           (fun item => forall dir w,
              noExcludedDirectory item = true ->
              match Clean3.filesOfEntry pathJoin dir item with
              | Some found => processEntry dir item w = (processAll found w, true)
              | None => (processEntry dir item w).2 = false
              end)).
  - intros n dir w _. unfold processEntry.
    cbn [Clean3.filesOfEntry Clean1.processEntry].
    destruct (isTypeScriptFile n); reflexivity.
  - intros n dir w _. reflexivity.
  - intros n dir w H. cbn [noExcludedDirectory] in H.
    apply andb_true_iff in H as [H _]. apply negb_true_iff in H.
    cbn [Clean3.filesOfEntry]. rewrite H. reflexivity.
  - intros n sub IH dir w H. cbn [noExcludedDirectory] in H.
    apply andb_true_iff in H as [H1 H2]. apply negb_true_iff in H1.
    rewrite processEntry_Dir, (filesOfEntry_Dir pathJoin), H1.
    now apply processDirectory_list.
Qed.
End Clean1DriverProperties.

Lemma clean1_processFile_outcome_witness :
  files (Clean1.processFile sampleParser samplePrinter "src/a.ts"
           (World sampleFiles [])) !! "src/README.md"
  = sampleFiles !! "src/README.md".
Proof.
  apply (proj2 (clean1_processFile_outcome sampleParser samplePrinter
                  "src/a.ts" (World sampleFiles []))).
  discriminate.
Defined.

Lemma clean1_processDirectory_scan_witness :
  Clean1.processDirectory sampleParser samplePrinter sampleJoin "src"
    [File "a.ts"; File "README.md"; Dir "lib" (Some [File "b.tsx"])]
    (World sampleFiles [])
  = (fold_left
       (fun w file => Clean1.processFile sampleParser samplePrinter file w)
       ["src/a.ts"; "src/lib/b.tsx"] (World sampleFiles []), true).
Proof.
  apply (clean1_processDirectory_scan sampleParser samplePrinter sampleJoin "src"
           [File "a.ts"; File "README.md"; Dir "lib" (Some [File "b.tsx"])]
           (World sampleFiles [])).
  reflexivity.
Defined.

(** ** The two simplifiers *)

Lemma map_ext_Forall {A B} (f g : A -> B) (p : A -> bool) l :
  Forall (fun x => p x = true -> f x = g x) l ->
  forallb p l = true -> map f l = map g l.
Proof.
  induction 1 as [|x l Hx Hl IH]; simpl; [reflexivity|].
  intros H. apply andb_true_iff in H as [H1 H2].
  now rewrite Hx, IH.
Qed.

Lemma simplifiers_agree_both :
  (forall e, simpleSinglesExpr e = true ->
             Clean2.visitExpr e = Clean3.visitExpr e) /\
  (forall s, forall b, simpleSingles s = true ->
             (b = true -> simpleBranch s = true) ->
             Clean2.visit b s = Clean3.visit b s).
Proof.
  pose (Q := fun s => forall b, simpleSingles s = true ->
                      (b = true -> simpleBranch s = true) ->
                      Clean2.visit b s = Clean3.visit b s).
  assert (Hmap : forall ss, Forall Q ss -> forallb simpleSingles ss = true ->
            map (Clean2.visit false) ss = map (Clean3.visit false) ss).
  { intros ss Hss. apply map_ext_Forall.
    eapply Forall_impl; [exact Hss|]. intros s Hs H. apply Hs; [exact H|discriminate]. }
  assert (HIf : forall cond t e,
            (simpleSinglesExpr cond = true ->
             Clean2.visitExpr cond = Clean3.visitExpr cond) ->
            Q t -> match e with Some e0 => Q e0 | None => True end ->
            Q (IfStatement cond t e)).
  { intros cond t e IHc IHt IHe b H _. cbn [simpleSingles] in H.
    apply andb_true_iff in H as [H H4].
    apply andb_true_iff in H as [H H3].
    apply andb_true_iff in H as [H1 H2].
    assert (He : option_map (Clean2.visit true) e = option_map (Clean3.visit true) e).
    { destruct e as [e0|]; [|reflexivity]. cbn [option_map]. f_equal.
      apply andb_true_iff in H4 as [H5 H6]. now apply IHe. }
    cbn [Clean2.visit Clean3.visit]. unfold simpleBranch in H2.
    destruct (singleStatementOf t) as [s|].
    - now rewrite H2, He.
    - rewrite (IHc H1), He. f_equal. apply IHt; [exact H3|discriminate]. }
  apply (tree_ind_both
           (fun e => simpleSinglesExpr e = true ->
                     Clean2.visitExpr e = Clean3.visitExpr e) Q);
    subst Q; cbn beta.
  - reflexivity.
  - intros o n IH H. simpl in *. now rewrite IH.
  - intros f args IHf IHargs H. simpl in *.
    apply andb_true_iff in H as [H1 H2].
    now rewrite (IHf H1), (map_ext_Forall _ _ _ _ IHargs H2).
  - intros k es ss IHes IHss H. simpl in *.
    apply andb_true_iff in H as [H1 H2].
    now rewrite (map_ext_Forall _ _ _ _ IHes H1), (Hmap _ IHss H2).
  - intros e IH b H _. simpl in *. now rewrite IH.
  - intros e IH b H _. simpl in *. now rewrite IH.
  - reflexivity.
  - intros ss IH b H Hb. cbn [simpleSingles] in H.
    cbn [Clean2.visit Clean3.visit]. rewrite (Hmap _ IH H).
    destruct b; [|reflexivity].
    destruct ss as [|s [|s' ss]]; try reflexivity.
    specialize (Hb eq_refl). unfold simpleBranch in Hb. cbn in Hb.
    now rewrite Hb.
  - intros cond t e IHc IHt IHe. now apply HIf.
  - intros cond t IHc IHt. now apply HIf.
  - intros k es ss IHes IHss b H _. simpl in *.
    apply andb_true_iff in H as [H1 H2].
    now rewrite (map_ext_Forall _ _ _ _ IHes H1), (Hmap _ IHss H2).
Qed.

(** On a source file in which every one-statement block that is a branch
    of an [IfStatement] holds an expression statement or a return
    statement, the earlier simplifier and the simplifier of [clean3.js]
    return the same tree: they differ only where the guard of
    [clean3.js] holds a block back. *)
Theorem simplifiers_agree s :
  simpleSingles s = true -> Clean2.visit false s = Clean3.visit false s.
Proof.
  intros H. apply (proj2 simplifiers_agree_both s false H). discriminate.
Qed.

Lemma simplifiers_agree_witness :
  Clean2.visit false if_forEach = Clean3.visit false if_forEach.
Proof. apply (simplifiers_agree if_forEach). reflexivity. Defined.

(** A second run of the conditional rewriter has nothing left to do: it
    returns the result of the first run as it is. *)
Theorem rewriter_second_run_noop s s' :
  Clean1.visit s = Some s' -> Clean1.visit s' = Some s'.
Proof. exact (proj2 visit_fixed_point s s'). Qed.

Lemma rewriter_second_run_noop_witness :
  Clean1.visit (IfStatement c (Block []) (Some (Block [doWork])))
  = Some (IfStatement c (Block []) (Some (Block [doWork]))).
Proof. apply (rewriter_second_run_noop if_log_else_work). reflexivity. Defined.

(** Filtering a filtered text gives the same text. *)
Theorem filterPrinted_twice printed :
  filterPrinted (filterPrinted printed) = filterPrinted printed.
Proof. exact (filterPrinted_idempotent printed). Qed.

(** ** The conditional rewriter only takes statements away *)

Lemma list_sum_omap_visit ss :
  Forall (fun s => forall s', Clean1.visit s = Some s' ->
                              countStatements s' <= countStatements s) ss ->
  list_sum (map countStatements (omap Clean1.visit ss))
  <= list_sum (map countStatements ss).
Proof.
  induction 1 as [|s ss Hs Hss IH]; [reflexivity|].
  cbn [omap list_omap]. destruct (Clean1.visit s) as [s'|] eqn:E.
  - cbn [map list_sum fold_right].
    apply Nat.add_le_mono; [exact (Hs s' eq_refl) | exact IH].
  - cbn [map list_sum fold_right].
    etransitivity; [exact IH | apply Nat.le_add_l].
Qed.

Lemma list_sum_map_visitExpr es :
  Forall (fun e => countStatementsExpr (Clean1.visitExpr e)
                   <= countStatementsExpr e) es ->
  list_sum (map countStatementsExpr (map Clean1.visitExpr es))
  <= list_sum (map countStatementsExpr es).
Proof.
  induction 1 as [|e es He Hes IH]; [reflexivity|].
  cbn [map list_sum fold_right].
  apply Nat.add_le_mono; [exact He | exact IH].
Qed.

Lemma countStatements_visit_both :
  (forall e, countStatementsExpr (Clean1.visitExpr e) <= countStatementsExpr e) /\
  (forall s s', Clean1.visit s = Some s' ->
                countStatements s' <= countStatements s).
Proof.
  pose (Q := fun s => forall s', Clean1.visit s = Some s' ->
                                 countStatements s' <= countStatements s).
  assert (HIf : forall cond t e, Q t ->
            match e with Some e0 => Q e0 | None => True end ->
            Q (IfStatement cond t e)).
  { intros cond t e IHt IHe r H.
    pose proof (visit_if_shape cond t e) as Hc.
    destruct (Clean1.visit t) as [t'|] eqn:Et.
    - destruct Hc as [e' He']. rewrite He' in H. injection H as <-.
      cbn [Clean1.visit] in He'.
      rewrite (visit_Some_not_removable _ _ Et), Et in He'.
      injection He' as He'.
      specialize (IHt t' Et). cbn [countStatements].
      destruct e' as [e1|]; [|lia].
      destruct e as [e0|]; [|discriminate He'].
      destruct (Clean1.visit e0) as [e2|] eqn:E0; [|discriminate He'].
      destruct (isRemovableStatement e0); [discriminate He'|].
      injection He' as ->. specialize (IHe e1 E0). lia.
    - rewrite Hc in H. destruct e as [e0|]; [|discriminate H].
      specialize (IHe r H). cbn [countStatements]. lia. }
  apply (tree_ind_both
           (fun e => countStatementsExpr (Clean1.visitExpr e)
                     <= countStatementsExpr e) Q);
    subst Q; cbn beta.
  - reflexivity.
  - intros o n IH. exact IH.
  - intros f args IHf IHargs. cbn [Clean1.visitExpr countStatementsExpr].
    pose proof (list_sum_map_visitExpr _ IHargs). lia.
  - intros k es ss IHes IHss. cbn [Clean1.visitExpr countStatementsExpr].
    pose proof (list_sum_map_visitExpr _ IHes).
    pose proof (list_sum_omap_visit _ IHss). lia.
  - intros e IH s' H. cbn [Clean1.visit] in H.
    destruct (shouldRemoveCall e); [discriminate H|].
    injection H as <-. cbn [countStatements]. lia.
  - intros e IH s' H. cbn [Clean1.visit] in H. injection H as <-.
    cbn [countStatements option_map]. lia.
  - intros s' H. cbn [Clean1.visit] in H. injection H as <-. reflexivity.
  - intros ss IH s' H. cbn [Clean1.visit] in H. injection H as <-.
    cbn [countStatements]. now apply list_sum_omap_visit.
  - intros cond t e _ IHt IHe. now apply HIf.
  - intros cond t _ IHt. now apply HIf.
  - intros k es ss IHes IHss s' H. cbn [Clean1.visit] in H. injection H as <-.
    cbn [countStatements].
    pose proof (list_sum_map_visitExpr _ IHes).
    pose proof (list_sum_omap_visit _ IHss). lia.
Qed.

(** The rewriter adds no statement: what it returns has at most as many
    statements other than blocks as what it was given. *)
Theorem rewriter_adds_no_statement s s' :
  Clean1.visit s = Some s' -> countStatements s' <= countStatements s.
Proof. exact (proj2 countStatements_visit_both s s'). Qed.

Lemma rewriter_adds_no_statement_witness :
  countStatements (IfStatement c (Block []) (Some (Block [doWork])))
  <= countStatements if_log_else_work.
Proof. apply (rewriter_adds_no_statement if_log_else_work). reflexivity. Defined.

(** Dropping a removable else branch can leave an open [if] in front of
    an outer [else].  In [if (a) if (b) x; else removable; else e;] the
    inner [if] has its own [else]; after the rewrite it has none, and it
    still stands without braces as the then-branch of the [if] that
    keeps its [else]. *)
Theorem rewriter_opens_nested_if a b x y e x' e' :
  Clean1.visit x = Some x' ->
  isRemovableStatement y = true ->
  Clean1.visit e = Some e' ->
  openIf (IfStatement b x (Some y)) = false /\
  Clean1.visit (IfStatement a (IfStatement b x (Some y)) (Some e))
  = Some (IfStatement a (IfStatement b x' None) (Some e')) /\
  openIf (IfStatement b x' None) = true.
Proof.
  intros Hx Hy He.
  assert (Hvy : Clean1.visit y = None).
  { destruct y; try discriminate Hy. simpl in *. now rewrite Hy. }
  split; [|split; [|reflexivity]].
  - destruct y; try discriminate Hy. reflexivity.
  - cbn [Clean1.visit isRemovableStatement].
    rewrite (visit_Some_not_removable _ _ Hx), Hx, Hvy, He.
    now rewrite (visit_Some_not_removable _ _ He).
Qed.

Lemma rewriter_opens_nested_if_witness :
  openIf (IfStatement (Identifier "b") foo (Some sink_log_a)) = false /\
  Clean1.visit (IfStatement (Identifier "a")
                  (IfStatement (Identifier "b") foo (Some sink_log_a)) (Some bar))
  = Some (IfStatement (Identifier "a")
            (IfStatement (Identifier "b") foo None) (Some bar)) /\
  openIf (IfStatement (Identifier "b") foo None) = true.
Proof.
  apply (rewriter_opens_nested_if (Identifier "a") (Identifier "b")
           foo sink_log_a bar foo bar); reflexivity.
Defined.
